(** * vibe-palette: colour utilities, backup validation and editor updaters

    A shallow embedding of [src/lib/colorUtils.ts] (hex / RGB / HSL
    routines, shade and palette generators), of [generateId] and
    [importBackup] of [src/lib/storage.ts], of [getContrastColor] of the
    palette list view and of the state updaters of
    [src/views/PaletteEditor.tsx], together with their properties.

    - A JavaScript [string] is a sequence of UTF-16 code units: [list N].
    - A JavaScript [number] is an IEEE 754 binary64 value: Rocq's primitive
      [float], whose operations round exactly as the JavaScript ones do.
    - [T | null] is [option T]. *)

From Stdlib Require Import ZArith NArith QArith List Bool Lia Ascii String.
From Stdlib Require Import Floats Uint63 Permutation.
Import ListNotations.
Close Scope Q_scope.

Set Warnings "-inexact-float,-register-all".

(** ** JavaScript strings *)

Module JsString.

Abbreviation char := N (only parsing).
Definition t := list char.

(** An ASCII literal as a JavaScript string. *)
Definition str (s : string) : t := map N_of_ascii (list_ascii_of_string s).

Definition between (lo hi c : N) : bool := ((lo <=? c) && (c <=? hi))%N.

(** WhiteSpace and LineTerminator code units, the ones [trim] removes:
    TAB, LF, VT, FF, CR, SPACE, NBSP, U+1680, U+2000..U+200A, U+2028,
    U+2029, U+202F, U+205F, U+3000, U+FEFF. *)
Definition is_white (c : char) : bool :=
  between 9 13 c || (c =? 32)%N || (c =? 160)%N || (c =? 5760)%N
  || between 8192 8202 c || (c =? 8232)%N || (c =? 8233)%N
  || (c =? 8239)%N || (c =? 8287)%N || (c =? 12288)%N || (c =? 65279)%N.

Fixpoint dropWhile (p : char -> bool) (s : t) : t :=
  match s with
  | [] => []
  | c :: s' => if p c then dropWhile p s' else s
  end.

Fixpoint takeWhile (p : char -> bool) (s : t) : t :=
  match s with
  | [] => []
  | c :: s' => if p c then c :: takeWhile p s' else []
  end.

(** [String.prototype.trim] *)
Definition trim (s : t) : t :=
  rev (dropWhile is_white (rev (dropWhile is_white s))).

(** [s.slice(i, j)] for [0 <= i <= j] *)
Definition slice (i j : nat) (s : t) : t := firstn (j - i) (skipn i s).

(** [s.slice(1)] *)
Definition slice1 (s : t) : t := skipn 1 s.

(** [s.startsWith('#')] *)
Definition startsWithHash (s : t) : bool :=
  match s with
  | c :: _ => (c =? 35)%N
  | [] => false
  end.

Definition is_digit (c : char) : bool := between 48 57 c.
Definition is_upper_hex (c : char) : bool := between 65 70 c.
Definition is_lower_hex (c : char) : bool := between 97 102 c.

(** The character class [[0-9A-Fa-f]] *)
Definition is_hex (c : char) : bool :=
  is_digit c || is_upper_hex c || is_lower_hex c.

(** [/^[0-9A-Fa-f]+$/.test(s)]: one hex digit or more, and nothing else *)
Definition all_hex (s : t) : bool :=
  match s with
  | [] => false
  | _ => forallb is_hex s
  end.

(** [toUpperCase] on the ASCII letters; the program applies it only to
    strings made of ['#'], hex digits and the letters of ["NaN"]. *)
Definition upper_char (c : char) : char :=
  if between 97 122 c then (c - 32)%N else c.

Definition toUpperCase (s : t) : t := map upper_char s.

(** Value of one digit in radix 16 *)
Definition digit_value (c : char) : Z :=
  if is_digit c then Z.of_N c - 48
  else if is_upper_hex c then Z.of_N c - 55
  else Z.of_N c - 87.

Definition hex_value (s : t) : Z :=
  fold_left (fun acc c => 16 * acc + digit_value c)%Z s 0%Z.

(** Digit of a value below 16, lower case as [toString(16)] prints it *)
Definition digit_char (d : Z) : char :=
  if (d <? 10)%Z then Z.to_N (d + 48) else Z.to_N (d + 87).

Fixpoint hex_digits_fuel (fuel : nat) (z : Z) (acc : t) : t :=
  match fuel with
  | O => acc
  | S fuel' =>
      let acc' := digit_char (z mod 16) :: acc in
      if (z <? 16)%Z then acc' else hex_digits_fuel fuel' (z / 16) acc'
  end.

(** Radix-16 digits of a non-negative integer, without padding *)
Definition hex_digits (z : Z) : t :=
  hex_digits_fuel (S (Z.to_nat (Z.log2 z))) z [].

End JsString.

Import JsString.

(** ** JavaScript numbers *)

Module JsNumber.

Open Scope float_scope.

(** The number denoted by an integer (correctly rounded, exact below 2^53) *)
Definition Z2float (z : Z) : float :=
  SF2Prim (binary_normalize prec emax z 0 false).

(** The integer a number denotes, when it is finite and integral *)
Definition float2Z (x : float) : option Z :=
  match Prim2SF x with
  | S754_zero _ => Some 0%Z
  | S754_finite s m e =>
      let v := if (0 <=? e)%Z then Some (Zpos m * 2 ^ e)%Z
               else if (Zpos m mod 2 ^ (- e) =? 0)%Z
                    then Some (Zpos m / 2 ^ (- e))%Z else None in
      if s then option_map Z.opp v else v
  | _ => None
  end.

Definition two52 : float := 4503599627370496.

(** Greatest integer below or equal to [x], for [0 <= x < 2^52]:
    [x + 2^52] is rounded to an integer, and the subtraction is exact. *)
Definition floor_pos (x : float) : float :=
  let t := (x + two52) - two52 in
  if x <? t then t - 1 else t.

(** [Math.round]: the integer nearest to [x], a tie going towards
    +infinity; NaN, the infinities, the zeros and every number of
    magnitude 2^52 or more (all integers) are returned as they are,
    and a negative [x] that rounds to zero gives [-0]. *)
Definition Math_round (x : float) : float :=
  if two52 <=? abs x then x
  else if 0 <? x then
    let f := floor_pos x in
    if 0.5 <=? x - f then f + 1 else f
  else if x <? 0 then
    let a := abs x in
    let f := floor_pos a in
    - (if 0.5 <? a - f then f + 1 else f)
  else x.

(** [Math.max] and [Math.min] of two numbers: NaN when an argument is,
    and [+0] above [-0]. *)
Definition Math_max (a b : float) : float :=
  if is_nan a || is_nan b then nan
  else if a <? b then b
  else if b <? a then a
  else if get_sign a then b else a.

Definition Math_min (a b : float) : float :=
  if is_nan a || is_nan b then nan
  else if a <? b then a
  else if b <? a then b
  else if get_sign a then a else b.

(** The remainder operator [a % b]: the result has the sign of the
    dividend and is computed without rounding. *)
Definition rem (a b : float) : float :=
  match Prim2SF a, Prim2SF b with
  | S754_nan, _ | _, S754_nan => nan
  | S754_infinity _, _ => nan
  | _, S754_zero _ => nan
  | _, S754_infinity _ => a
  | S754_zero _, _ => a
  | S754_finite sa ma ea, S754_finite _ mb eb =>
      let e := Z.min ea eb in
      let A := (Zpos ma * 2 ^ (ea - e))%Z in
      let B := (Zpos mb * 2 ^ (eb - e))%Z in
      let R := (A mod B)%Z in
      SF2Prim (binary_normalize prec emax (if sa then - R else R)%Z e sa)
  end.

(** [n.toString(16)] on the values [rgbToHex] gives it: NaN, or an
    integer of [0..255] after rounding and clamping. *)
Definition toString16 (x : float) : JsString.t :=
  match float2Z x with
  | Some z => if (z <? 0)%Z then 45%N :: hex_digits (- z) else hex_digits z
  | None => str "NaN"
  end.

(** [parseInt(s, 16)]: leading white space, a sign and a [0x] prefix are
    skipped, the longest run of hex digits is read, and NaN is returned
    when there is none. *)
Definition parseInt16 (s : JsString.t) : float :=
  let s := dropWhile is_white s in
  let '(neg, s) :=
    match s with
    | 45%N :: s' => (true, s')
    | 43%N :: s' => (false, s')
    | _ => (false, s)
    end in
  let s :=
    match s with
    | 48%N :: 120%N :: s' => s'
    | 48%N :: 88%N :: s' => s'
    | _ => s
    end in
  match takeWhile is_hex s with
  | [] => nan
  | ds => let v := Z2float (hex_value ds) in if neg then - v else v
  end.

End JsNumber.

Import JsNumber.

(** ** The program: [src/lib/colorUtils.ts] *)

Open Scope float_scope.

Record Rgb : Set := mkRgb { r : float; g : float; b : float }.
Record Hsl : Set := mkHsl { h : float; s : float; l : float }.

Inductive Brightness : Set := light | dark.

Inductive Role : Set := primary | accent | background | text | other.

Record PaletteEntry : Set :=
  mkEntry { hex : JsString.t; label : JsString.t; role : Role }.

(** Validates and normalizes a hex colour code: [#RRGGBB], or [None]. *)
Definition normalizeHex (input : JsString.t) : option JsString.t :=
  let hex := trim input in
  let hex := if startsWithHash hex then slice1 hex else hex in
  if negb (all_hex hex) then None
  else
    let hex :=
      if (List.length hex =? 3)%nat then flat_map (fun c => [c; c]) hex
      else hex in
    if negb (List.length hex =? 6)%nat then None
    else Some (35%N :: toUpperCase hex).

(** [!normalized]: [null] and the empty string are falsy. *)
Definition hexToRgb (hex : JsString.t) : option Rgb :=
  match normalizeHex hex with
  | None | Some [] => None
  | Some normalized =>
      let hexValue := slice1 normalized in
      Some (mkRgb (parseInt16 (slice 0 2 hexValue))
                  (parseInt16 (slice 2 4 hexValue))
                  (parseInt16 (slice 4 6 hexValue)))
  end.

Definition rgbToHsl (r g b : float) : Hsl :=
  let r := r / 255 in
  let g := g / 255 in
  let b := b / 255 in
  let max := Math_max (Math_max r g) b in
  let min := Math_min (Math_min r g) b in
  let l := (max + min) / 2 in
  let '(h, s) :=
    if negb (max =? min) then
      let d := max - min in
      let s := if 0.5 <? l then d / (2 - max - min) else d / (max + min) in
      let h :=
        if max =? r then ((g - b) / d + (if g <? b then 6 else 0)) / 6
        else if max =? g then ((b - r) / d + 2) / 6
        else if max =? b then ((r - g) / d + 4) / 6
        else 0 in
      (h, s)
    else (0, 0) in
  mkHsl (Math_round (h * 360)) (Math_round (s * 100)) (Math_round (l * 100)).

Definition hue2rgb (p q t : float) : float :=
  let t := if t <? 0 then t + 1 else t in
  let t := if 1 <? t then t - 1 else t in
  if t <? 1 / 6 then p + (q - p) * 6 * t
  else if t <? 1 / 2 then q
  else if t <? 2 / 3 then p + (q - p) * (2 / 3 - t) * 6
  else p.

Definition hslToRgb (h s l : float) : Rgb :=
  let h := h / 360 in
  let s := s / 100 in
  let l := l / 100 in
  let '(r, g, b) :=
    if s =? 0 then (l, l, l)
    else
      let q := if l <? 0.5 then l * (1 + s) else l + s - l * s in
      let p := 2 * l - q in
      (hue2rgb p q (h + 1 / 3), hue2rgb p q h, hue2rgb p q (h - 1 / 3)) in
  mkRgb (Math_round (r * 255)) (Math_round (g * 255)) (Math_round (b * 255)).

Definition toHex (n : float) : JsString.t :=
  let hex := toString16 (Math_max 0 (Math_min 255 (Math_round n))) in
  if (List.length hex =? 1)%nat then 48%N :: hex else hex.

Definition rgbToHex (r g b : float) : JsString.t :=
  toUpperCase (35%N :: toHex r ++ toHex g ++ toHex b).

Definition lightnessValues : list float :=
  [95; 85; 75; 65; 55; 45; 35; 25; 20; 15; 10; 5].

Definition generateShades (hex : JsString.t) : list JsString.t :=
  match hexToRgb hex with
  | None => []
  | Some rgb =>
      let hsl := rgbToHsl (r rgb) (g rgb) (b rgb) in
      map (fun lightness =>
             let rgb := hslToRgb (h hsl) (s hsl) lightness in
             rgbToHex (r rgb) (g rgb) (b rgb))
          lightnessValues
  end.

Definition luminance (rgb : Rgb) : float :=
  (0.299 * r rgb + 0.587 * g rgb + 0.114 * b rgb) / 255.

Definition getColorBrightness (hex : JsString.t) : Brightness :=
  match hexToRgb hex with
  | None => dark
  | Some rgb => if 0.5 <? luminance rgb then light else dark
  end.

(** The default blue palette returned for an invalid base colour *)
Definition fallbackPalette : list PaletteEntry :=
  [ mkEntry (str "#3B82F6") (str "Primary") primary;
    mkEntry (str "#10B981") (str "Accent") accent;
    mkEntry (str "#F9FAFB") (str "Light Background") background;
    mkEntry (str "#1F2937") (str "Dark Text") text;
    mkEntry (str "#6366F1") (str "Secondary") other ].

Definition generatePaletteFromBase (baseHex : JsString.t) : list PaletteEntry :=
  match hexToRgb baseHex with
  | None => fallbackPalette
  | Some rgb =>
      let hsl := rgbToHsl (r rgb) (g rgb) (b rgb) in
      let primary_ := baseHex in
      let accentHsl := mkHsl (rem (h hsl + 180) 360) (s hsl) (l hsl) in
      let accentRgb := hslToRgb (h accentHsl) (s accentHsl) (l accentHsl) in
      let accent_ := rgbToHex (r accentRgb) (g accentRgb) (b accentRgb) in
      let backgroundHsl := mkHsl (h hsl) (Math_max 10 (s hsl * 0.2)) 95 in
      let backgroundRgb :=
        hslToRgb (h backgroundHsl) (s backgroundHsl) (l backgroundHsl) in
      let background_ :=
        rgbToHex (r backgroundRgb) (g backgroundRgb) (b backgroundRgb) in
      let textHsl := mkHsl (h hsl) (Math_min 15 (s hsl * 0.3)) 15 in
      let textRgb := hslToRgb (h textHsl) (s textHsl) (l textHsl) in
      let text_ := rgbToHex (r textRgb) (g textRgb) (b textRgb) in
      let secondaryHsl :=
        mkHsl (rem (h hsl + 30) 360)
              (Math_max 40 (Math_min 80 (s hsl)))
              (Math_max 35 (Math_min 65 (l hsl + 10))) in
      let secondaryRgb :=
        hslToRgb (h secondaryHsl) (s secondaryHsl) (l secondaryHsl) in
      let secondary :=
        rgbToHex (r secondaryRgb) (g secondaryRgb) (b secondaryRgb) in
      [ mkEntry primary_ (str "Primary") primary;
        mkEntry accent_ (str "Accent") accent;
        mkEntry background_ (str "Light Background") background;
        mkEntry text_ (str "Dark Text") text;
        mkEntry secondary (str "Secondary") other ]
  end.

(** Equality of strings, decided *)
Fixpoint str_eqb (a c : JsString.t) : bool :=
  match a, c with
  | [], [] => true
  | x :: a', y :: c' => (x =? y)%N && str_eqb a' c'
  | _, _ => false
  end.

(** ** The palette list view: [getContrastColor]

    [hex.replace('#', '')] removes the first ['#'] wherever it stands, and
    [substring] reads what is there: no normalization takes place. *)

Fixpoint removeFirstHash (s : JsString.t) : JsString.t :=
  match s with
  | [] => []
  | c :: s' => if (c =? 35)%N then s' else c :: removeFirstHash s'
  end.

Definition getContrastColor (hex : JsString.t) : JsString.t :=
  let cleanHex := removeFirstHash hex in
  let r := parseInt16 (slice 0 2 cleanHex) in
  let g := parseInt16 (slice 2 4 cleanHex) in
  let b := parseInt16 (slice 4 6 cleanHex) in
  let luminance := (0.299 * r + 0.587 * g + 0.114 * b) / 255 in
  if 0.5 <? luminance then str "#000000" else str "#FFFFFF".

(** ** [src/lib/storage.ts]: validation of a backup

    A value that [JSON.parse] returns. An object holds each key once, so
    the first binding of a key is its property. *)

Inductive Json : Type :=
| JNull
| JBool (v : bool)
| JNumber (v : float)
| JString (v : JsString.t)
| JArray (items : list Json)
| JObject (fields : list (JsString.t * Json)).

(** What a function does: it returns a value or throws an [Error]. *)
Inductive Outcome (A : Type) : Type :=
| Returned (v : A)
| Thrown (message : JsString.t).

Arguments Returned {A} v.
Arguments Thrown {A} message.

Fixpoint lookup (key : JsString.t) (fields : list (JsString.t * Json))
  : option Json :=
  match fields with
  | [] => None
  | (k, v) :: rest => if str_eqb k key then Some v else lookup key rest
  end.

(** [v.key]: [undefined] is [None]; an array has no property of the names
    read here. *)
Definition property (v : Json) (key : JsString.t) : option Json :=
  match v with
  | JObject fields => lookup key fields
  | _ => None
  end.

(** [typeof v === 'object'], which holds of [null] and of arrays too *)
Definition typeof_object (v : Json) : bool :=
  match v with
  | JNull | JArray _ | JObject _ => true
  | _ => false
  end.

Definition is_null (v : Json) : bool :=
  match v with JNull => true | _ => false end.

(** [typeof v === 'string'] *)
Definition typeof_string (v : option Json) : bool :=
  match v with Some (JString _) => true | _ => false end.

(** [Array.isArray(v)] *)
Definition isArray (v : option Json) : bool :=
  match v with Some (JArray _) => true | _ => false end.

(** The three checks of the loop body on one element; [None] when the
    element passes. *)
Definition paletteError (palette : Json) : option JsString.t :=
  if negb (typeof_object palette) || is_null palette then
    Some (str "Invalid backup format: each item must be a palette object")
  else if negb (typeof_string (property palette (str "id")))
          || negb (typeof_string (property palette (str "name"))) then
    Some (str "Invalid backup format: each palette must have an id and name")
  else if negb (isArray (property palette (str "colors"))) then
    Some (str "Invalid backup format: each palette must have a colors array")
  else None.

(** The [for ... of] loop: the first element that fails throws. *)
Fixpoint firstError (items : list Json) : option JsString.t :=
  match items with
  | [] => None
  | palette :: rest =>
      match paletteError palette with
      | Some message => Some message
      | None => firstError rest
      end
  end.

Section ImportBackup.

(** [JSON.parse], [None] when it throws *)
Variable JSON_parse : JsString.t -> option Json.

Definition importBackup (jsonContent : JsString.t) : Outcome (list Json) :=
  match JSON_parse jsonContent with
  | None => Thrown (str "Invalid JSON format: please check your backup file")
  | Some parsed =>
      match parsed with
      | JArray items =>
          match firstError items with
          | Some message => Thrown message
          | None => Returned items
          end
      | _ =>
          Thrown (str "Invalid backup format: expected an array of palettes")
      end
  end.

End ImportBackup.

(** ** [src/lib/paletteTypes.ts] *)

Module VibeColor.

Record t : Type := mk {
  id : JsString.t;
  hex : JsString.t;
  label : option JsString.t;
  role : option Role
}.

End VibeColor.

Module VibePalette.

Record t : Type := mk {
  id : JsString.t;
  name : JsString.t;
  brand : option JsString.t;
  notes : option JsString.t;
  colors : list VibeColor.t;
  createdAt : JsString.t;
  updatedAt : JsString.t
}.

End VibePalette.

(** ** [src/views/PaletteEditor.tsx]: the state updaters

    Each updater is the function given to [setEditedPalette]; the time
    stamp [new Date().toISOString()] and the identifier [generateId()] are
    arguments. *)

Module PaletteEditor.

(** [Partial<VibeColor>]: the properties an update carries *)
Record Updates : Type := mkUpdates {
  u_id : option JsString.t;
  u_hex : option JsString.t;
  u_label : option (option JsString.t);
  u_role : option (option Role)
}.

Inductive Direction : Set := Left | Right.

(** [{ ...color, ...updates }] *)
Definition merge (color : VibeColor.t) (updates : Updates) : VibeColor.t :=
  VibeColor.mk
    (match u_id updates with Some v => v | None => VibeColor.id color end)
    (match u_hex updates with Some v => v | None => VibeColor.hex color end)
    (match u_label updates with Some v => v | None => VibeColor.label color end)
    (match u_role updates with Some v => v | None => VibeColor.role color end).

Definition withColors (prev : VibePalette.t) (colors : list VibeColor.t)
           (now : JsString.t) : VibePalette.t :=
  VibePalette.mk (VibePalette.id prev) (VibePalette.name prev)
                 (VibePalette.brand prev) (VibePalette.notes prev)
                 colors (VibePalette.createdAt prev) now.

Definition updateColor (colorId : JsString.t) (updates : Updates)
           (now : JsString.t) (prev : VibePalette.t) : VibePalette.t :=
  withColors prev
    (map (fun color =>
            if str_eqb (VibeColor.id color) colorId
            then merge color updates else color)
         (VibePalette.colors prev))
    now.

Definition addColor (newId now : JsString.t) (prev : VibePalette.t)
  : VibePalette.t :=
  let newColor := VibeColor.mk newId (str "#3B82F6") (Some []) (Some other) in
  withColors prev (VibePalette.colors prev ++ [newColor]) now.

Definition deleteColor (colorId now : JsString.t) (prev : VibePalette.t)
  : VibePalette.t :=
  withColors prev
    (filter (fun color => negb (str_eqb (VibeColor.id color) colorId))
            (VibePalette.colors prev))
    now.

(** [findIndex]: [None] is -1 *)
Fixpoint findIndex (p : VibeColor.t -> bool) (l : list VibeColor.t)
  : option nat :=
  match l with
  | [] => None
  | c :: l' =>
      if p c then Some O else option_map S (findIndex p l')
  end.

(** [l[i] = x] for an index inside the array *)
Fixpoint assign (i : nat) (x : VibeColor.t) (l : list VibeColor.t)
  : list VibeColor.t :=
  match l, i with
  | [], _ => []
  | _ :: l', O => x :: l'
  | c :: l', S i' => c :: assign i' x l'
  end.

Definition moveColor (colorId : JsString.t) (direction : Direction)
           (now : JsString.t) (prev : VibePalette.t) : VibePalette.t :=
  let colors := VibePalette.colors prev in
  match findIndex (fun c => str_eqb (VibeColor.id c) colorId) colors with
  | None => prev
  | Some index =>
      let newIndex :=
        match direction with
        | Left => match index with O => None | S i => Some i end
        | Right => Some (S index)
        end in
      match newIndex with
      | None => prev
      | Some newIndex =>
          if (List.length colors <=? newIndex)%nat then prev
          else
            match nth_error colors index, nth_error colors newIndex with
            | Some a, Some c =>
                withColors prev (assign newIndex a (assign index c colors)) now
            | _, _ => prev
            end
      end
  end.

(** What a handler does, in order *)
Inductive Effect : Type :=
| OnUpdate (updates : Updates)
| SetHexInput (value : JsString.t)
| ShowToast (message : JsString.t)
| OnSave (palette : VibePalette.t).

(** [handleHexBlur] of a colour row; [if (normalized)] is false for [null]
    and for the empty string. *)
Definition handleHexBlur (hexInput : JsString.t) (color : VibeColor.t)
  : list Effect :=
  match normalizeHex hexInput with
  | Some (c :: n) =>
      [OnUpdate (mkUpdates None (Some (c :: n)) None None);
       SetHexInput (c :: n)]
  | _ => [SetHexInput (VibeColor.hex color); ShowToast (str "Invalid hex color")]
  end.

(** [handleSave]: a name that is empty once trimmed is refused. *)
Definition handleSave (editedPalette : VibePalette.t) : list Effect :=
  match trim (VibePalette.name editedPalette) with
  | [] => [ShowToast (str "Palette name is required")]
  | _ => [OnSave editedPalette; ShowToast (str "Palette saved!")]
  end.

(** The row's [onUpdate] is [updateColor color.id]: what the effects of a
    row do to the edited palette. *)
Fixpoint runEffects (colorId now : JsString.t) (effects : list Effect)
         (prev : VibePalette.t) : VibePalette.t :=
  match effects with
  | [] => prev
  | OnUpdate updates :: rest =>
      runEffects colorId now rest (updateColor colorId updates now prev)
  | _ :: rest => runEffects colorId now rest prev
  end.

End PaletteEditor.

(** ** [src/lib/storage.ts]: [generateId]

    The template is rewritten from left to right; the callback draws
    [(Math.random() * 16) | 0], an integer of [0..15], once for every ['x']
    and ['y']. [random k] is the number drawn at the k-th call. *)

Section GenerateId.

Variable random : nat -> Z.

Fixpoint replaceXY (template : JsString.t) (k : nat) : JsString.t :=
  match template with
  | [] => []
  | c :: rest =>
      if (c =? 120)%N || (c =? 121)%N then
        let r := random k in
        let v := if (c =? 120)%N then r else Z.lor (Z.land r 3) 8 in
        hex_digits v ++ replaceXY rest (S k)
      else c :: replaceXY rest k
  end.

Definition generateId : JsString.t :=
  replaceXY (str "xxxxxxxx-xxxx-4xxx-yxxx-xxxxxxxxxxxx") 0.

End GenerateId.

(** ** Notions used to state the properties *)

(** A digit of the canonical form: [0-9] or [A-F] *)
Definition canonical_char (c : char) : bool := is_digit c || is_upper_hex c.

(** The canonical form: ['#'] followed by six upper-case hex digits *)
Definition is_canonical (s : JsString.t) : bool :=
  match s with
  | c :: u =>
      (c =? 35)%N && (List.length u =? 6)%nat && forallb canonical_char u
  | [] => false
  end.

(** Bounded quantification, decided by enumeration *)
Definition forall_below (n : nat) (P : N -> bool) : bool :=
  forallb P (map N.of_nat (seq 0 n)).

Definition forallZ_below (n : nat) (P : Z -> bool) : bool :=
  forallb P (map Z.of_nat (seq 0 n)).

(** What one valid channel must satisfy for the hex round trip *)
Definition chan_ok (z : Z) : bool :=
  match toUpperCase (toHex (Z2float z)) with
  | [c1; c2] =>
      canonical_char c1 && canonical_char c2
      && PrimFloat.Leibniz.eqb (parseInt16 [c1; c2]) (Z2float z)
  | _ => false
  end.

(** What two canonical digits must decode to *)
Definition pair_ok (c1 c2 : char) : bool :=
  implb (canonical_char c1 && canonical_char c2)
        (let v := hex_value [c1; c2] in
         (0 <=? v)%Z && (v <=? 255)%Z
         && PrimFloat.Leibniz.eqb (parseInt16 [c1; c2]) (Z2float v)).

(** The complement of an integer hue, as the remainder operator gives it *)
Definition complement_ok (hz : Z) : bool :=
  PrimFloat.Leibniz.eqb (rem (Z2float hz + 180) 360)
                        (Z2float ((hz + 180) mod 360)).

(** The HSL round trip of an RGB triple *)
Definition roundTrip (r g b : float) : Rgb :=
  let hsl := rgbToHsl r g b in hslToRgb (h hsl) (s hsl) (l hsl).





(** The weighted luminance of the specification, in exact arithmetic:
    [(0.299 r + 0.587 g + 0.114 b) / 255]. *)
Definition luminance_exact (rz gz bz : Z) : Q :=
  ((299 # 1000) * inject_Z rz + (587 # 1000) * inject_Z gz
   + (114 # 1000) * inject_Z bz) / inject_Z 255.

(** The one decoded colour whose exact luminance is 1/2 and whose computed
    luminance is above it: ["#DA3AF8"]. *)
Definition tie_above (rz gz bz : Z) : bool :=
  ((rz =? 218) && (gz =? 58) && (bz =? 248))%Z.

(** The weighted terms of the luminance for the 256 values of a channel:
    the exact weight times the value, and the computed product. *)
Definition weighted (w : int) (wf : float) : list (int * float) :=
  map (fun z => ((w * Uint63.of_Z z)%uint63, wf * Z2float z))
      (map Z.of_nat (seq 0 256)).

(** What one triple of weighted terms must satisfy: the computed
    classification is the exact one, or the triple is that of [tie_above]. *)
Definition luminance_term_ok (rr gg bb : int * float) : bool :=
  Bool.eqb (0.5 <? (snd rr + snd gg + snd bb) / 255)
           (127500 <? fst rr + fst gg + fst bb)%uint63
  || ((fst rr =? 65182) && (fst gg =? 34046) && (fst bb =? 28272))%uint63.

(** The same over three tables, the sum of the first two terms being taken
    once for every pair. *)
Definition luminance_cube_ok (tr tg tb : list (int * float)) : bool :=
  forallb (fun rr =>
    forallb (fun gg =>
      let n := (fst rr + fst gg)%uint63 in
      let x := snd rr + snd gg in
      forallb (fun bb =>
        Bool.eqb (0.5 <? (x + snd bb) / 255) (127500 <? n + fst bb)%uint63
        || ((fst rr =? 65182) && (fst gg =? 34046) && (fst bb =? 28272))%uint63)
        tb) tg) tr.

(** What two canonical digits must print back as, once decoded *)
Definition pair_print_ok (c1 c2 : char) : bool :=
  implb (canonical_char c1 && canonical_char c2)
        (str_eqb (toUpperCase (toHex (parseInt16 [c1; c2]))) [c1; c2]).

(** Hue 360 and hue 0 give the same colour. *)
Definition hue_wrap_ok (sz lz : Z) : bool :=
  let a := hslToRgb 360 (Z2float sz) (Z2float lz) in
  let c := hslToRgb 0 (Z2float sz) (Z2float lz) in
  PrimFloat.Leibniz.eqb (r a) (r c) && PrimFloat.Leibniz.eqb (g a) (g c)
  && PrimFloat.Leibniz.eqb (b a) (b c).

(** An integer channel is read back from the number that denotes it. *)
Definition channel_exact (z : Z) : bool :=
  match float2Z (Z2float z) with
  | Some z' => (z' =? z)%Z
  | None => false
  end.

(** A backup element that passes: an object whose [id] and [name] are
    strings and whose [colors] is an array. *)
Definition valid_palette (palette : Json) : Prop :=
  exists fields idv namev cols,
    palette = JObject fields
    /\ lookup (str "id") fields = Some (JString idv)
    /\ lookup (str "name") fields = Some (JString namev)
    /\ lookup (str "colors") fields = Some (JArray cols).

(** Every colour of the palette has its hex in canonical form. *)
Definition canonical_palette (p : VibePalette.t) : Prop :=
  Forall (fun c => is_canonical (VibeColor.hex c) = true) (VibePalette.colors p).

(** The test [c.id === colorId] of the updaters *)
Definition has_id (colorId : JsString.t) (c : VibeColor.t) : bool :=
  str_eqb (VibeColor.id c) colorId.

(** The integer that a small non-negative integral number denotes, read
    off its mantissa and exponent (shift 2101, precision 53); a number is
    taken as the integer [i] only once it is found equal to [of_uint63 i]. *)
Definition int_of (x : float) : int :=
  let (m, e) := frshiftexp x in
  (normfr_mantissa m >> (2154 - e))%uint63.

Definition int_below (bound : int) (x : float) : bool :=
  let i := int_of x in
  PrimFloat.Leibniz.eqb x (of_uint63 i) && (i <=? bound)%uint63.

Definition small_int_ok (z : Z) : bool :=
  PrimFloat.Leibniz.eqb (of_uint63 (Uint63.of_Z z)) (Z2float z).

(** The numbers 0, 1, ..., n - 1 *)
Definition numbers (n : nat) : list float :=
  map (fun k => Z2float (Z.of_nat k)) (seq 0 n).

(** [hslToRgb] on a grid of hues, saturations and lightnesses gives
    integer channels of [0..255]. *)
Definition hslToRgb_grid_ok (hs ss ls : list float) : bool :=
  forallb (fun sv =>
    forallb (fun lv =>
      forallb (fun hv =>
        let c := hslToRgb hv sv lv in
        int_below 255 (r c) && int_below 255 (g c) && int_below 255 (b c))
        hs) ls) ss.

(** A channel of [0..255] scaled to the unit interval, as [rgbToHsl]
    starts by doing *)
Definition unit_channel (z : Z) : float := Z2float z / 255.

Definition unit_channels : list (Z * float) :=
  map (fun k => (Z.of_nat k, unit_channel (Z.of_nat k))) (seq 0 256).

(** Saturation and lightness as [rgbToHsl] computes them from the largest
    and the smallest scaled channel *)
Definition saturation_of (max min : float) : float :=
  Math_round
    ((if negb (max =? min) then
        let d := max - min in
        if 0.5 <? (max + min) / 2 then d / (2 - max - min) else d / (max + min)
      else 0) * 100).

Definition lightness_of (max min : float) : float :=
  Math_round ((max + min) / 2 * 100).

(** [Math.max] and [Math.min] of two scaled channels are the channel of
    the larger and of the smaller value. *)
Definition extremes_ok (p q : Z * float) : bool :=
  PrimFloat.Leibniz.eqb (Math_max (snd p) (snd q))
                        (if (fst p <=? fst q)%Z then snd q else snd p)
  && PrimFloat.Leibniz.eqb (Math_min (snd p) (snd q))
                           (if (fst p <=? fst q)%Z then snd p else snd q).

(** Saturation and lightness of a largest and a smallest channel are
    integers of [0..100]. *)
Definition sl_ok (p q : Z * float) : bool :=
  if (fst q <=? fst p)%Z then
    int_below 100 (saturation_of (snd p) (snd q))
    && int_below 100 (lightness_of (snd p) (snd q))
  else true.

Definition all_pairs (ok : Z * float -> Z * float -> bool)
           (table : list (Z * float)) : bool :=
  forallb (fun p => forallb (fun q => ok p q) table) table.

(** The hue as [rgbToHsl] computes it from the scaled channels and from
    the largest and the smallest of them *)
Definition hue_of (r0 g0 b0 max min : float) : float :=
  Math_round
    ((if negb (max =? min) then
        let d := max - min in
        if max =? r0 then ((g0 - b0) / d + (if g0 <? b0 then 6 else 0)) / 6
        else if max =? g0 then ((b0 - r0) / d + 2) / 6
        else if max =? b0 then ((r0 - g0) / d + 4) / 6
        else 0
      else 0) * 360).

Definition larger (x y : float) : float := if x <? y then y else x.
Definition smaller (x y : float) : float := if x <? y then x else y.

(** On scaled channels [Math.max] and [Math.min] are one comparison. *)
Definition choice_ok (p q : Z * float) : bool :=
  PrimFloat.Leibniz.eqb (Math_max (snd p) (snd q)) (larger (snd p) (snd q))
  && PrimFloat.Leibniz.eqb (Math_min (snd p) (snd q)) (smaller (snd p) (snd q)).

(** The hue of every triple of scaled channels is an integer of [0..360]. *)
Definition hue_cube_ok (rs gs bs : list float) : bool :=
  forallb (fun xr =>
    forallb (fun xg =>
      let a := larger xr xg in
      let n := smaller xr xg in
      forallb (fun xb =>
        int_below 360 (hue_of xr xg xb (larger a xb) (smaller n xb)))
        bs) gs) rs.

(** The analogous hue and the clamped saturation and lightness of the
    entry "other" are again integers. *)
Definition analogous_ok (hz : Z) : bool :=
  PrimFloat.Leibniz.eqb (rem (Z2float hz + 30) 360)
                        (Z2float ((hz + 30) mod 360)).

Definition clamp_ok (z : Z) : bool :=
  PrimFloat.Leibniz.eqb (Math_max 40 (Math_min 80 (Z2float z)))
                        (Z2float (Z.max 40 (Z.min 80 z)))
  && PrimFloat.Leibniz.eqb (Math_max 35 (Math_min 65 (Z2float z + 10)))
                           (Z2float (Z.max 35 (Z.min 65 (z + 10)))).

Definition channels_ok (c : Rgb) : bool :=
  int_below 255 (r c) && int_below 255 (g c) && int_below 255 (b c).

(** The background and the text colour of a hue and a saturation have
    integer channels of [0..255]. *)
Definition tints_ok (hs ss : list float) : bool :=
  forallb (fun sv =>
    forallb (fun hv =>
      channels_ok (hslToRgb hv (Math_max 10 (sv * 0.2)) 95)
      && channels_ok (hslToRgb hv (Math_min 15 (sv * 0.3)) 15))
      hs) ss.

(** A digit [0-9a-f], and a digit [89ab] *)
Definition lower_hex_digit (c : char) : bool := is_digit c || is_lower_hex c.

Definition variant_digit (c : char) : bool :=
  (c =? 56)%N || (c =? 57)%N || (c =? 97)%N || (c =? 98)%N.

(** [s] is the template with a hex digit for every ['x'] and one of
    [8 9 a b] for every ['y']. *)
Fixpoint fills (template s : JsString.t) : bool :=
  match template, s with
  | [], [] => true
  | c :: template', d :: s' =>
      (if (c =? 120)%N then lower_hex_digit d
       else if (c =? 121)%N then variant_digit d
       else (d =? c)%N)
      && fills template' s'
  | _, _ => false
  end.

Definition draw_ok (rv : Z) : bool :=
  match hex_digits rv, hex_digits (Z.lor (Z.land rv 3) 8) with
  | [c], [d] => lower_hex_digit c && variant_digit d
  | _, _ => false
  end.

(** * Properties *)

(** ** Enumeration *)

Lemma forall_below_spec (n : nat) (P : N -> bool) :
  forall_below n P = true ->
  forall c, (c < N.of_nat n)%N -> P c = true.
Proof.
  unfold forall_below. intros H c Hc.
  rewrite forallb_forall in H. apply H.
  apply in_map_iff. exists (N.to_nat c). split.
  - apply N2Nat.id.
  - apply in_seq. lia.
Qed.

Lemma forallZ_below_spec (n : nat) (P : Z -> bool) :
  forallZ_below n P = true ->
  forall z, (0 <= z < Z.of_nat n)%Z -> P z = true.
Proof.
  unfold forallZ_below. intros H z Hz.
  rewrite forallb_forall in H. apply H.
  apply in_map_iff. exists (Z.to_nat z). split.
  - apply Z2Nat.id. lia.
  - apply in_seq. lia.
Qed.

Lemma float_eqb_eq (x y : float) :
  PrimFloat.Leibniz.eqb x y = true -> x = y.
Proof. apply FloatAxioms.Leibniz.eqb_spec. Qed.

(** ** Characters *)

Lemma is_hex_below (c : char) : is_hex c = true -> (c < 103)%N.
Proof.
  unfold is_hex, is_digit, is_upper_hex, is_lower_hex, between.
  rewrite !orb_true_iff, !andb_true_iff, !N.leb_le. lia.
Qed.

Lemma canonical_is_hex (c : char) : canonical_char c = true -> is_hex c = true.
Proof.
  unfold canonical_char, is_hex. intros H.
  apply orb_true_iff in H. destruct H as [H | H]; rewrite H.
  - reflexivity.
  - now rewrite orb_true_r.
Qed.

Lemma hex_char_facts (c : char) :
  is_hex c = true ->
  is_white c = false /\ canonical_char (upper_char c) = true.
Proof.
  intros H.
  assert (K : forall_below 103
                (fun c => implb (is_hex c)
                            (negb (is_white c) && canonical_char (upper_char c)))
              = true) by (vm_compute; reflexivity).
  pose proof (forall_below_spec _ _ K c (is_hex_below c H)) as E.
  cbv beta in E. rewrite H in E. simpl in E.
  apply andb_true_iff in E. destruct E as [E1 E2].
  split; [now apply negb_true_iff | exact E2].
Qed.

Lemma canonical_char_facts (c : char) :
  canonical_char c = true ->
  is_white c = false /\ is_hex c = true /\ upper_char c = c.
Proof.
  intros H. pose proof (canonical_is_hex c H) as Hx.
  assert (K : forall_below 103
                (fun c => implb (canonical_char c) (upper_char c =? c)%N) = true)
    by (vm_compute; reflexivity).
  pose proof (forall_below_spec _ _ K c (is_hex_below c Hx)) as E.
  cbv beta in E. rewrite H in E. simpl in E.
  repeat split; [apply (hex_char_facts c Hx) | exact Hx | now apply N.eqb_eq].
Qed.

(** ** [normalizeHex] *)

Lemma all_hex_forallb (s : JsString.t) :
  all_hex s = true -> forallb is_hex s = true.
Proof. destruct s; [discriminate | trivial]. Qed.

Lemma forallb_hex_double (s : JsString.t) :
  forallb is_hex s = true ->
  forallb is_hex (flat_map (fun c => [c; c]) s) = true.
Proof.
  induction s as [| c s IH]; simpl; [trivial |].
  intros H. apply andb_true_iff in H. destruct H as [Hc Hs].
  rewrite Hc, (IH Hs). reflexivity.
Qed.

Lemma forallb_upper_canonical (s : JsString.t) :
  forallb is_hex s = true ->
  forallb canonical_char (toUpperCase s) = true.
Proof.
  induction s as [| c s IH]; simpl; [trivial |].
  intros H. apply andb_true_iff in H. destruct H as [Hc Hs].
  rewrite (proj2 (hex_char_facts c Hc)), (IH Hs). reflexivity.
Qed.

(** Whatever [normalizeHex] returns is in canonical form. *)
Lemma normalizeHex_canonical_result (x y : JsString.t) :
  normalizeHex x = Some y -> is_canonical y = true.
Proof.
  unfold normalizeHex.
  set (h0 := if startsWithHash (trim x) then slice1 (trim x) else trim x).
  destruct (all_hex h0) eqn:Hall; simpl; [| discriminate].
  apply all_hex_forallb in Hall.
  set (h1 := if (List.length h0 =? 3)%nat
             then flat_map (fun c => [c; c]) h0 else h0).
  assert (H1 : forallb is_hex h1 = true).
  { subst h1. destruct (List.length h0 =? 3)%nat;
      [now apply forallb_hex_double | exact Hall]. }
  destruct (List.length h1 =? 6)%nat eqn:Hlen; simpl; [| discriminate].
  intros E. injection E as <-. simpl.
  unfold toUpperCase at 1. rewrite length_map, Hlen. simpl.
  now apply forallb_upper_canonical.
Qed.

Lemma canonical_inv (y : JsString.t) :
  is_canonical y = true ->
  exists c1 c2 c3 c4 c5 c6,
    y = [35%N; c1; c2; c3; c4; c5; c6]
    /\ canonical_char c1 = true /\ canonical_char c2 = true
    /\ canonical_char c3 = true /\ canonical_char c4 = true
    /\ canonical_char c5 = true /\ canonical_char c6 = true.
Proof.
  destruct y as [| c u]; simpl; [discriminate |].
  intros H. apply andb_true_iff in H. destruct H as [H Hall].
  apply andb_true_iff in H. destruct H as [Hc Hlen].
  apply N.eqb_eq in Hc. subst c.
  destruct u as [| c1 [| c2 [| c3 [| c4 [| c5 [| c6 [| c7 u]]]]]]];
    try discriminate.
  simpl in Hall. rewrite !andb_true_iff in Hall.
  exists c1, c2, c3, c4, c5, c6. intuition.
Qed.

(** A canonical value is returned as it is. *)
Lemma normalizeHex_canonical (y : JsString.t) :
  is_canonical y = true -> normalizeHex y = Some y.
Proof.
  intros H.
  destruct (canonical_inv y H)
    as (c1 & c2 & c3 & c4 & c5 & c6 & -> & H1 & H2 & H3 & H4 & H5 & H6).
  destruct (canonical_char_facts c1 H1) as (_ & X1 & U1).
  destruct (canonical_char_facts c2 H2) as (_ & X2 & U2).
  destruct (canonical_char_facts c3 H3) as (_ & X3 & U3).
  destruct (canonical_char_facts c4 H4) as (_ & X4 & U4).
  destruct (canonical_char_facts c5 H5) as (_ & X5 & U5).
  destruct (canonical_char_facts c6 H6) as (W6 & X6 & U6).
  unfold normalizeHex, trim. cbn [dropWhile]. 
  change (is_white 35%N) with false. cbv iota.
  cbn [rev app dropWhile]. rewrite W6.
  cbn [rev app startsWithHash]. change (35 =? 35)%N with true. cbv iota.
  cbn [slice1 skipn all_hex forallb]. rewrite X1, X2, X3, X4, X5, X6.
  cbn [andb negb List.length Nat.eqb toUpperCase map].
  rewrite U1, U2, U3, U4, U5, U6. reflexivity.
Qed.

(** ** [hexToRgb] *)

Lemma hexToRgb_canonical (c1 c2 c3 c4 c5 c6 : char) :
  is_canonical [35%N; c1; c2; c3; c4; c5; c6] = true ->
  hexToRgb [35%N; c1; c2; c3; c4; c5; c6]
  = Some (mkRgb (parseInt16 [c1; c2]) (parseInt16 [c3; c4])
                (parseInt16 [c5; c6])).
Proof.
  intros H. unfold hexToRgb. rewrite (normalizeHex_canonical _ H). reflexivity.
Qed.

Lemma hexToRgb_normalized (x n : JsString.t) :
  normalizeHex x = Some n -> hexToRgb x = hexToRgb n.
Proof.
  intros H. unfold hexToRgb. rewrite H.
  rewrite (normalizeHex_canonical n (normalizeHex_canonical_result x n H)).
  reflexivity.
Qed.

Lemma hexToRgb_valid (x n : JsString.t) :
  normalizeHex x = Some n -> exists rgb, hexToRgb x = Some rgb.
Proof.
  intros H. rewrite (hexToRgb_normalized x n H).
  pose proof (normalizeHex_canonical_result x n H) as Hc.
  destruct (canonical_inv n Hc) as (c1 & c2 & c3 & c4 & c5 & c6 & -> & _).
  rewrite (hexToRgb_canonical _ _ _ _ _ _ Hc). eauto.
Qed.

Lemma hexToRgb_invalid (x : JsString.t) :
  normalizeHex x = None -> hexToRgb x = None.
Proof. intros H. unfold hexToRgb. now rewrite H. Qed.

Lemma pair_ok_all :
  forall_below 71 (fun c1 => forall_below 71 (fun c2 => pair_ok c1 c2)) = true.
Proof. vm_compute. reflexivity. Qed.

Lemma canonical_below (c : char) : canonical_char c = true -> (c < 71)%N.
Proof.
  unfold canonical_char, is_digit, is_upper_hex, between.
  rewrite !orb_true_iff, !andb_true_iff, !N.leb_le. lia.
Qed.

(** Two canonical digits decode to an integer of [0..255]. *)
Lemma parseInt16_pair (c1 c2 : char) :
  canonical_char c1 = true -> canonical_char c2 = true ->
  exists v, (0 <= v <= 255)%Z /\ parseInt16 [c1; c2] = Z2float v.
Proof.
  intros H1 H2.
  pose proof (forall_below_spec _ _ pair_ok_all c1 (canonical_below c1 H1)) as E.
  cbv beta in E.
  pose proof (forall_below_spec _ _ E c2 (canonical_below c2 H2)) as E'.
  cbv beta in E'. unfold pair_ok in E'. rewrite H1, H2 in E'.
  cbn [andb implb] in E'. cbv zeta in E'.
  rewrite !andb_true_iff in E'. destruct E' as [[Ha Hb] Hc].
  exists (hex_value [c1; c2]). split.
  - apply Z.leb_le in Ha, Hb. lia.
  - now apply float_eqb_eq.
Qed.

(** A decoded colour has three integer channels in [0..255]. *)
Lemma hexToRgb_channels (x : JsString.t) (rgb : Rgb) :
  hexToRgb x = Some rgb ->
  exists rz gz bz,
    (0 <= rz <= 255)%Z /\ (0 <= gz <= 255)%Z /\ (0 <= bz <= 255)%Z
    /\ rgb = mkRgb (Z2float rz) (Z2float gz) (Z2float bz).
Proof.
  intros H. destruct (normalizeHex x) as [n |] eqn:Hn;
    [| rewrite (hexToRgb_invalid x Hn) in H; discriminate].
  rewrite (hexToRgb_normalized x n Hn) in H.
  pose proof (normalizeHex_canonical_result x n Hn) as Hc.
  destruct (canonical_inv n Hc)
    as (c1 & c2 & c3 & c4 & c5 & c6 & -> & H1 & H2 & H3 & H4 & H5 & H6).
  rewrite (hexToRgb_canonical _ _ _ _ _ _ Hc) in H. injection H as <-.
  destruct (parseInt16_pair c1 c2 H1 H2) as (rz & Hr & ->).
  destruct (parseInt16_pair c3 c4 H3 H4) as (gz & Hg & ->).
  destruct (parseInt16_pair c5 c6 H5 H6) as (bz & Hb & ->).
  exists rz, gz, bz. auto.
Qed.

(** ** [rgbToHex] *)

Lemma rgbToHex_channels (r g b : float) :
  rgbToHex r g b
  = 35%N :: toUpperCase (toHex r) ++ toUpperCase (toHex g)
            ++ toUpperCase (toHex b).
Proof. unfold rgbToHex, toUpperCase. cbn [map]. now rewrite !map_app. Qed.

Lemma chan_ok_all : forallZ_below 256 chan_ok = true.
Proof. vm_compute. reflexivity. Qed.

Lemma toHex_channel (z : Z) :
  (0 <= z <= 255)%Z ->
  exists c1 c2,
    toUpperCase (toHex (Z2float z)) = [c1; c2]
    /\ canonical_char c1 = true /\ canonical_char c2 = true
    /\ parseInt16 [c1; c2] = Z2float z.
Proof.
  intros Hz.
  assert (E : chan_ok z = true)
    by (apply (forallZ_below_spec _ _ chan_ok_all); simpl; lia).
  unfold chan_ok in E.
  destruct (toUpperCase (toHex (Z2float z))) as [| c1 [| c2 [| c3 u]]];
    try discriminate.
  rewrite !andb_true_iff in E. destruct E as [[E1 E2] E3].
  exists c1, c2. repeat split; auto using float_eqb_eq.
Qed.

Lemma complement_ok_all : forallZ_below 361 complement_ok = true.
Proof. vm_compute. reflexivity. Qed.

(** ** Hex codec claims *)

(** C9. Normalization is idempotent: when [normalizeHex x] succeeds,
    normalizing its result gives the same result again; and a value already
    in canonical form (['#'] and six upper-case hex digits) is returned
    unchanged. *)
Theorem normalizeHex_idempotent (x y c : JsString.t) :
  normalizeHex x = Some y ->
  is_canonical c = true ->
  normalizeHex y = normalizeHex x /\ normalizeHex c = Some c.
Proof.
  intros Hx Hc. split.
  - rewrite Hx. apply normalizeHex_canonical.
    exact (normalizeHex_canonical_result x y Hx).
  - now apply normalizeHex_canonical.
Qed.

Lemma normalizeHex_idempotent_witness :
  normalizeHex (str "#AABBCC") = normalizeHex (str " #abc ")
  /\ normalizeHex (str "#3B82F6") = Some (str "#3B82F6").
Proof.
  apply (normalizeHex_idempotent (str " #abc ") (str "#AABBCC") (str "#3B82F6"));
    reflexivity.
Defined.

(** C10. [hexToRgb] accepts every form the normalizer accepts (shorthand,
    lower case, no ['#'], surrounding white space): when [normalizeHex s]
    succeeds, [hexToRgb s] succeeds too and decodes [s] exactly as it
    decodes the canonical form of [s]. *)
Theorem hexToRgb_accepts_unnormalized (s n : JsString.t) :
  normalizeHex s = Some n ->
  hexToRgb s <> None /\ hexToRgb s = hexToRgb n.
Proof.
  intros H. split.
  - destruct (hexToRgb_valid s n H) as [rgb ->]. discriminate.
  - now apply hexToRgb_normalized.
Qed.

Lemma hexToRgb_accepts_unnormalized_witness :
  hexToRgb (str " 3af ") <> None
  /\ hexToRgb (str " 3af ") = hexToRgb (str "#33AAFF").
Proof.
  apply (hexToRgb_accepts_unnormalized (str " 3af ") (str "#33AAFF")).
  reflexivity.
Defined.

(** C2. For integer channels [r], [g], [b] in [0..255], decoding the hex
    string that [rgbToHex] prints succeeds and gives back exactly
    [r], [g], [b]. *)
Theorem hexToRgb_rgbToHex (rz gz bz : Z) :
  (0 <= rz <= 255)%Z -> (0 <= gz <= 255)%Z -> (0 <= bz <= 255)%Z ->
  hexToRgb (rgbToHex (Z2float rz) (Z2float gz) (Z2float bz))
  = Some (mkRgb (Z2float rz) (Z2float gz) (Z2float bz)).
Proof.
  intros Hr Hg Hb. rewrite rgbToHex_channels.
  destruct (toHex_channel rz Hr) as (c1 & c2 & -> & H1 & H2 & <-).
  destruct (toHex_channel gz Hg) as (c3 & c4 & -> & H3 & H4 & <-).
  destruct (toHex_channel bz Hb) as (c5 & c6 & -> & H5 & H6 & <-).
  cbn [app]. apply hexToRgb_canonical.
  cbn [is_canonical List.length Nat.eqb forallb andb].
  rewrite H1, H2, H3, H4, H5, H6. reflexivity.
Qed.

Lemma hexToRgb_rgbToHex_witness :
  hexToRgb (rgbToHex (Z2float 59) (Z2float 130) (Z2float 246))
  = Some (mkRgb (Z2float 59) (Z2float 130) (Z2float 246)).
Proof. apply (hexToRgb_rgbToHex 59 130 246); lia. Defined.

(** ** Invalid input *)

(** C7. When [normalizeHex s] fails, nothing is raised and every
    decode-facing function returns its sentinel or fallback: [hexToRgb]
    gives [None], [getColorBrightness] gives [dark], [generateShades]
    gives the empty list, and [generatePaletteFromBase] gives the one
    fixed palette of five entries whose roles are, in order, primary,
    accent, background, text, other. *)
Theorem invalid_input_fallbacks (s : JsString.t) :
  normalizeHex s = None ->
  hexToRgb s = None
  /\ getColorBrightness s = dark
  /\ generateShades s = []
  /\ generatePaletteFromBase s = fallbackPalette
  /\ map role (generatePaletteFromBase s)
     = [primary; accent; background; text; other].
Proof.
  intros H. pose proof (hexToRgb_invalid s H) as E.
  unfold getColorBrightness, generateShades, generatePaletteFromBase.
  rewrite E. repeat split.
Qed.

Lemma invalid_input_fallbacks_witness :
  hexToRgb (str "not-a-color") = None
  /\ getColorBrightness (str "not-a-color") = dark
  /\ generateShades (str "not-a-color") = []
  /\ generatePaletteFromBase (str "not-a-color") = fallbackPalette
  /\ map role (generatePaletteFromBase (str "not-a-color"))
     = [primary; accent; background; text; other].
Proof. apply (invalid_input_fallbacks (str "not-a-color")). reflexivity. Defined.

(** ** Shades and palette *)

(** C5. For a valid hex input, [generateShades] returns exactly twelve
    strings; the k-th is [rgbToHex] of [hslToRgb h s L_k], where [h] and
    [s] are the hue and saturation of the decoded input and [L_k] runs
    through 95, 85, 75, 65, 55, 45, 35, 25, 20, 15, 10, 5 in that order. *)
Theorem generateShades_schedule (input n : JsString.t) :
  normalizeHex input = Some n ->
  exists rgb,
    hexToRgb input = Some rgb
    /\ let hsl := rgbToHsl (r rgb) (g rgb) (b rgb) in
       let shade := fun L =>
         let c := hslToRgb (h hsl) (s hsl) L in rgbToHex (r c) (g c) (b c) in
       generateShades input
       = [shade 95; shade 85; shade 75; shade 65; shade 55; shade 45;
          shade 35; shade 25; shade 20; shade 15; shade 10; shade 5]
       /\ List.length (generateShades input) = 12%nat.
Proof.
  intros H. destruct (hexToRgb_valid input n H) as [rgb E].
  exists rgb. split; [exact E |].
  unfold generateShades. rewrite E. split; reflexivity.
Qed.

Lemma generateShades_schedule_witness :
  exists rgb,
    hexToRgb (str "#3b82f6") = Some rgb
    /\ let hsl := rgbToHsl (r rgb) (g rgb) (b rgb) in
       let shade := fun L =>
         let c := hslToRgb (h hsl) (s hsl) L in rgbToHex (r c) (g c) (b c) in
       generateShades (str "#3b82f6")
       = [shade 95; shade 85; shade 75; shade 65; shade 55; shade 45;
          shade 35; shade 25; shade 20; shade 15; shade 10; shade 5]
       /\ List.length (generateShades (str "#3b82f6")) = 12%nat.
Proof.
  apply (generateShades_schedule (str "#3b82f6") (str "#3B82F6")). reflexivity.
Defined.

(** The ramp of the specification's example, evaluated. *)
Example generateShades_3B82F6 :
  generateShades (str "#3B82F6")
  = map str ["#E7F0FE"; "#B6D1FC"; "#85B2F9"; "#5593F7"; "#2474F5"; "#0A5ADB";
             "#0846AA"; "#06327A"; "#052861"; "#031E49"; "#021431"; "#010A18"]%string.
Proof. vm_compute. reflexivity. Qed.

(** C4, as stated, fails: for the shorthand ["#abc"], which normalizes to
    ["#AABBCC"], the primary entry carries the input itself. *)
Lemma primary_hex_counterexample :
  normalizeHex (str "#abc") = Some (str "#AABBCC")
  /\ ~ (exists e rest,
          generatePaletteFromBase (str "#abc") = e :: rest
          /\ role e = primary
          /\ Some (hex e) = normalizeHex (str "#abc")).
Proof.
  split; [reflexivity |].
  intros (e & rest & E & _ & Hh).
  assert (He : hex e = str "#abc").
  { change (hex e) with (hex (hd e (e :: rest))). rewrite <- E. reflexivity. }
  rewrite He in Hh. vm_compute in Hh. discriminate.
Qed.

(** C4, amended. For every input [normalizeHex] accepts, the first entry of
    [generatePaletteFromBase] has role primary and its hex value is the
    input string itself, unchanged; it is the normalized form of the input
    exactly when the input is already canonical. *)
Theorem primary_is_input (input n : JsString.t) :
  normalizeHex input = Some n ->
  exists rest,
    generatePaletteFromBase input
    = mkEntry input (str "Primary") primary :: rest
    /\ (input = n <-> is_canonical input = true).
Proof.
  intros H. destruct (hexToRgb_valid input n H) as [rgb E].
  unfold generatePaletteFromBase. rewrite E. cbv zeta.
  eexists. split; [reflexivity |]. split.
  - intros ->. exact (normalizeHex_canonical_result n n H).
  - intros Hc. rewrite (normalizeHex_canonical input Hc) in H. congruence.
Qed.

Lemma primary_is_input_witness :
  exists rest,
    generatePaletteFromBase (str "#abc")
    = mkEntry (str "#abc") (str "Primary") primary :: rest
    /\ (str "#abc" = str "#AABBCC" <-> is_canonical (str "#abc") = true).
Proof. apply (primary_is_input (str "#abc") (str "#AABBCC")). reflexivity. Defined.

(** C6. For a valid hex input whose decoded colour has HSL [(h, s, l)], the
    second entry of [generatePaletteFromBase] is the accent: the hex of
    [hslToRgb ((h + 180) % 360) s l]; for an integer hue of [0..360] the
    remainder is the integer [(h + 180) mod 360]. Pure red ["#FF0000"] has
    HSL (0, 100, 50) and its accent is exactly ["#00FFFF"]. *)
Theorem accent_is_complement (input n : JsString.t) :
  normalizeHex input = Some n ->
  exists rgb,
    hexToRgb input = Some rgb
    /\ let hsl := rgbToHsl (r rgb) (g rgb) (b rgb) in
       let c := hslToRgb (rem (h hsl + 180) 360) (s hsl) (l hsl) in
       nth_error (generatePaletteFromBase input) 1
       = Some (mkEntry (rgbToHex (r c) (g c) (b c)) (str "Accent") accent)
       /\ (forall hz : Z,
             (0 <= hz <= 360)%Z -> h hsl = Z2float hz ->
             rem (h hsl + 180) 360 = Z2float ((hz + 180) mod 360))
       /\ rgbToHsl 255 0 0 = mkHsl 0 100 50
       /\ nth_error (generatePaletteFromBase (str "#FF0000")) 1
          = Some (mkEntry (str "#00FFFF") (str "Accent") accent).
Proof.
  intros H. destruct (hexToRgb_valid input n H) as [rgb E].
  exists rgb. split; [exact E |]. cbv zeta.
  unfold generatePaletteFromBase at 1. rewrite E. cbv zeta.
  split; [reflexivity |]. split; [| split; vm_compute; reflexivity].
  intros hz Hz ->. apply float_eqb_eq.
  apply (forallZ_below_spec _ _ complement_ok_all). simpl. lia.
Qed.

Lemma accent_is_complement_witness :
  exists rgb,
    hexToRgb (str "#3B82F6") = Some rgb
    /\ let hsl := rgbToHsl (r rgb) (g rgb) (b rgb) in
       let c := hslToRgb (rem (h hsl + 180) 360) (s hsl) (l hsl) in
       nth_error (generatePaletteFromBase (str "#3B82F6")) 1
       = Some (mkEntry (rgbToHex (r c) (g c) (b c)) (str "Accent") accent)
       /\ (forall hz : Z,
             (0 <= hz <= 360)%Z -> h hsl = Z2float hz ->
             rem (h hsl + 180) 360 = Z2float ((hz + 180) mod 360))
       /\ rgbToHsl 255 0 0 = mkHsl 0 100 50
       /\ nth_error (generatePaletteFromBase (str "#FF0000")) 1
          = Some (mkEntry (str "#00FFFF") (str "Accent") accent).
Proof. apply (accent_is_complement (str "#3B82F6") (str "#3B82F6")). reflexivity. Defined.

(** ** Colour-space conversion *)

(** C3. The claim excludes a hue of 360, and the code returns it: the
    hue fraction is wrapped into a turn before it is scaled and rounded,
    and the rounding takes 359.76 up to 360. Saturation and lightness of
    this colour are 100 and 50. *)
Theorem rgbToHsl_hue_reaches_360 :
  rgbToHsl (Z2float 255) (Z2float 0) (Z2float 1)
  = mkHsl (Z2float 360) (Z2float 100) (Z2float 50).
Proof. vm_compute. reflexivity. Qed.





(** ** Brightness *)

Lemma wB_value : wB = 9223372036854775808%Z.
Proof. reflexivity. Qed.

Lemma phi_weighted (w : int) (z : Z) :
  (0 <= to_Z w <= 1000)%Z -> (0 <= z <= 255)%Z ->
  to_Z (w * Uint63.of_Z z)%uint63 = (to_Z w * z)%Z.
Proof.
  intros Hw Hz. rewrite Uint63.mul_spec, Uint63.of_Z_spec, wB_value.
  rewrite (Z.mod_small z) by lia. apply Z.mod_small. nia.
Qed.

Lemma weighted_In (w : int) (wf : float) (z : Z) :
  (0 <= z <= 255)%Z ->
  In ((w * Uint63.of_Z z)%uint63, wf * Z2float z) (weighted w wf).
Proof.
  intros Hz. unfold weighted. rewrite map_map.
  apply in_map_iff. exists (Z.to_nat z). rewrite Z2Nat.id by lia.
  split; [reflexivity | apply in_seq; lia].
Qed.

Lemma luminance_cube_ok_spec (tr tg tb : list (int * float)) :
  luminance_cube_ok tr tg tb = true ->
  forall rr gg bb, In rr tr -> In gg tg -> In bb tb ->
  luminance_term_ok rr gg bb = true.
Proof.
  unfold luminance_cube_ok. intros K rr gg bb Hr Hg Hb.
  rewrite forallb_forall in K. specialize (K rr Hr). cbv beta in K.
  rewrite forallb_forall in K. specialize (K gg Hg). cbv beta zeta in K.
  rewrite forallb_forall in K. exact (K bb Hb).
Qed.

Lemma luminance_cube :
  luminance_cube_ok (weighted 299 0.299) (weighted 587 0.587)
                    (weighted 114 0.114) = true.
Proof. vm_cast_no_check (eq_refl true). Qed.

Lemma weight_eqb (w : int) (z k : Z) :
  (0 < to_Z w <= 1000)%Z -> (0 <= z <= 255)%Z -> (0 <= k <= 255)%Z ->
  (w * Uint63.of_Z z =? Uint63.of_Z (to_Z w * k))%uint63 = (z =? k)%Z.
Proof.
  intros Hw Hz Hk. apply eq_true_iff_eq.
  rewrite Uint63.eqb_spec, Z.eqb_eq. split.
  - intros E. apply (f_equal to_Z) in E.
    rewrite phi_weighted, Uint63.of_Z_spec, wB_value in E by lia.
    rewrite Z.mod_small in E by nia. nia.
  - intros ->. apply Uint63.to_Z_inj.
    rewrite phi_weighted, Uint63.of_Z_spec, wB_value by lia.
    rewrite Z.mod_small by nia. reflexivity.
Qed.

Lemma weights_sum (rz gz bz : Z) :
  (0 <= rz <= 255)%Z -> (0 <= gz <= 255)%Z -> (0 <= bz <= 255)%Z ->
  to_Z (299 * Uint63.of_Z rz + 587 * Uint63.of_Z gz
        + 114 * Uint63.of_Z bz)%uint63
  = (299 * rz + 587 * gz + 114 * bz)%Z.
Proof.
  intros Hr Hg Hb.
  assert (W1 : to_Z 299%uint63 = 299%Z) by reflexivity.
  assert (W2 : to_Z 587%uint63 = 587%Z) by reflexivity.
  assert (W3 : to_Z 114%uint63 = 114%Z) by reflexivity.
  rewrite !Uint63.add_spec, !phi_weighted, W1, W2, W3, wB_value by lia.
  rewrite (Z.mod_small (299 * rz + 587 * gz)) by lia.
  apply Z.mod_small. lia.
Qed.

(** On every triple of [0..255] but one, the computed luminance is above
    0.5 exactly when [299 r + 587 g + 114 b] is above 127500. *)
Lemma luminance_agrees (rz gz bz : Z) :
  (0 <= rz <= 255)%Z -> (0 <= gz <= 255)%Z -> (0 <= bz <= 255)%Z ->
  tie_above rz gz bz = false ->
  (0.5 <? luminance (mkRgb (Z2float rz) (Z2float gz) (Z2float bz)))
  = (127500 <? 299 * rz + 587 * gz + 114 * bz)%Z.
Proof.
  intros Hr Hg Hb Ht.
  pose proof (luminance_cube_ok_spec _ _ _ luminance_cube _ _ _
                (weighted_In 299 0.299 rz Hr) (weighted_In 587 0.587 gz Hg)
                (weighted_In 114 0.114 bz Hb)) as K.
  unfold luminance_term_ok in K. cbn [fst snd] in K.
  assert (E1 : (299 * Uint63.of_Z rz =? 65182)%uint63 = (rz =? 218)%Z)
    by (apply (weight_eqb 299 rz 218); [split; [reflexivity | discriminate] | lia | lia]).
  assert (E2 : (587 * Uint63.of_Z gz =? 34046)%uint63 = (gz =? 58)%Z)
    by (apply (weight_eqb 587 gz 58); [split; [reflexivity | discriminate] | lia | lia]).
  assert (E3 : (114 * Uint63.of_Z bz =? 28272)%uint63 = (bz =? 248)%Z)
    by (apply (weight_eqb 114 bz 248); [split; [reflexivity | discriminate] | lia | lia]).
  rewrite E1, E2, E3 in K. fold (tie_above rz gz bz) in K.
  rewrite Ht, orb_false_r in K. apply Bool.eqb_prop in K.
  unfold luminance. cbn [r g b]. rewrite K.
  apply eq_true_iff_eq.
  rewrite Uint63.ltb_spec, Z.ltb_lt, (weights_sum rz gz bz Hr Hg Hb).
  reflexivity.
Qed.

Lemma luminance_exact_above (rz gz bz : Z) :
  (1 # 2 < luminance_exact rz gz bz)%Q
  <-> (127500 < 299 * rz + 587 * gz + 114 * bz)%Z.
Proof.
  unfold luminance_exact, Qlt, Qdiv, Qmult, Qplus, Qinv, inject_Z.
  cbn [Qnum Qden]. simpl. lia.
Qed.

(** C8, as stated, fails: ["#DA3AF8"] decodes to (218, 58, 248), whose
    weighted luminance is exactly 1/2 (299*218 + 587*58 + 114*248 = 127500),
    and is classified light: in binary64 the sum of the three products is
    127.50000000000001 and the quotient 0.5000000000000001. *)
Lemma brightness_tie_counterexample :
  hexToRgb (str "#DA3AF8")
  = Some (mkRgb (Z2float 218) (Z2float 58) (Z2float 248))
  /\ (luminance_exact 218 58 248 == 1 # 2)%Q
  /\ ~ (getColorBrightness (str "#DA3AF8") = light
        <-> (1 # 2 < luminance_exact 218 58 248)%Q).
Proof.
  split; [vm_compute; reflexivity |]. split; [reflexivity |].
  intros [Hl _].
  assert (E : getColorBrightness (str "#DA3AF8") = light)
    by (vm_compute; reflexivity).
  apply Hl in E. apply luminance_exact_above in E. lia.
Qed.

(** C8, amended. For a valid hex input decoding to integers (r, g, b) of
    [0..255], [getColorBrightness] returns light exactly when the luminance
    computed in binary64, [(0.299*r + 0.587*g + 0.114*b) / 255], is above
    0.5, and dark otherwise. For every decoded colour except (218, 58, 248)
    this is the exact test: light exactly when the weighted luminance is
    strictly above 1/2, dark also when it equals 1/2. ["#FFFFFF"] is light
    and ["#000000"] is dark. *)
Theorem brightness_classification (input : JsString.t) (rgb : Rgb) :
  hexToRgb input = Some rgb ->
  exists rz gz bz,
    (0 <= rz <= 255)%Z /\ (0 <= gz <= 255)%Z /\ (0 <= bz <= 255)%Z
    /\ rgb = mkRgb (Z2float rz) (Z2float gz) (Z2float bz)
    /\ (getColorBrightness input = light <-> (0.5 <? luminance rgb) = true)
    /\ (getColorBrightness input = dark <-> (0.5 <? luminance rgb) = false)
    /\ (tie_above rz gz bz = false ->
        (getColorBrightness input = light
         <-> (1 # 2 < luminance_exact rz gz bz)%Q))
    /\ getColorBrightness (str "#FFFFFF") = light
    /\ getColorBrightness (str "#000000") = dark.
Proof.
  intros H.
  destruct (hexToRgb_channels input rgb H)
    as (rz & gz & bz & Hr & Hg & Hb & E).
  exists rz, gz, bz. do 4 (split; [assumption |]).
  assert (L : getColorBrightness input
              = if 0.5 <? luminance rgb then light else dark)
    by (unfold getColorBrightness; now rewrite H).
  split; [| split; [| split; [| split; vm_compute; reflexivity]]].
  - rewrite L. destruct (0.5 <? luminance rgb); split; congruence.
  - rewrite L. destruct (0.5 <? luminance rgb); split; congruence.
  - intros Ht. rewrite L, E, (luminance_agrees rz gz bz Hr Hg Hb Ht).
    rewrite luminance_exact_above, <- Z.ltb_lt.
    destruct (127500 <? 299 * rz + 587 * gz + 114 * bz)%Z; split; congruence.
Qed.

Lemma brightness_classification_witness :
  exists rz gz bz,
    (0 <= rz <= 255)%Z /\ (0 <= gz <= 255)%Z /\ (0 <= bz <= 255)%Z
    /\ mkRgb 59 130 246 = mkRgb (Z2float rz) (Z2float gz) (Z2float bz)
    /\ (getColorBrightness (str "#3B82F6") = light
        <-> (0.5 <? luminance (mkRgb 59 130 246)) = true)
    /\ (getColorBrightness (str "#3B82F6") = dark
        <-> (0.5 <? luminance (mkRgb 59 130 246)) = false)
    /\ (tie_above rz gz bz = false ->
        (getColorBrightness (str "#3B82F6") = light
         <-> (1 # 2 < luminance_exact rz gz bz)%Q))
    /\ getColorBrightness (str "#FFFFFF") = light
    /\ getColorBrightness (str "#000000") = dark.
Proof.
  apply (brightness_classification (str "#3B82F6") (mkRgb 59 130 246)).
  vm_compute. reflexivity.
Defined.

(** * Further properties of [colorUtils.ts] *)

(** ** Strings *)

Lemma str_eqb_eq (a c : JsString.t) : str_eqb a c = true -> a = c.
Proof.
  revert c. induction a as [| x a IH]; intros [| y c]; simpl;
    try discriminate; [reflexivity |].
  intros H. apply andb_true_iff in H. destruct H as [Hx Hr].
  apply N.eqb_eq in Hx. subst y. now rewrite (IH c Hr).
Qed.

Lemma dropWhile_all (p : char -> bool) (w s : JsString.t) :
  forallb p w = true -> dropWhile p (w ++ s) = dropWhile p s.
Proof.
  induction w as [| c w IH]; simpl; [reflexivity |].
  intros H. apply andb_true_iff in H. destruct H as [Hc Hw].
  rewrite Hc. now apply IH.
Qed.

Lemma dropWhile_app (p : char -> bool) (s w : JsString.t) :
  forallb p w = true ->
  dropWhile p (s ++ w)
  = match dropWhile p s with [] => [] | _ => dropWhile p s ++ w end.
Proof.
  intros Hw. induction s as [| c s IH]; simpl.
  - rewrite <- (app_nil_r w). now rewrite dropWhile_all.
  - destruct (p c); [exact IH | reflexivity].
Qed.

Lemma forallb_rev (p : char -> bool) (s : JsString.t) :
  forallb p (rev s) = forallb p s.
Proof.
  induction s as [| c s IH]; simpl; [reflexivity |].
  rewrite forallb_app, IH. simpl. rewrite andb_true_r. apply andb_comm.
Qed.

(** White space around a string does not change what [trim] returns. *)
Lemma trim_padding (w1 w2 s : JsString.t) :
  forallb is_white w1 = true -> forallb is_white w2 = true ->
  trim (w1 ++ s ++ w2) = trim s.
Proof.
  intros H1 H2. unfold trim.
  rewrite (dropWhile_all _ w1 _ H1), (dropWhile_app _ s w2 H2).
  destruct (dropWhile is_white s) as [| c u]; [reflexivity |].
  rewrite rev_app_distr, dropWhile_all; [reflexivity |].
  now rewrite forallb_rev.
Qed.

Lemma dropWhile_none (p : char -> bool) (s : JsString.t) :
  forallb (fun c => negb (p c)) s = true -> dropWhile p s = s.
Proof.
  destruct s as [| c s]; simpl; [reflexivity |].
  intros H. apply andb_true_iff in H. destruct H as [Hc _].
  apply negb_true_iff in Hc. now rewrite Hc.
Qed.

(** A string without white space is left as it is by [trim]. *)
Lemma trim_none (s : JsString.t) :
  forallb (fun c => negb (is_white c)) s = true -> trim s = s.
Proof.
  intros H. unfold trim. rewrite (dropWhile_none _ s H).
  rewrite dropWhile_none by now rewrite forallb_rev.
  apply rev_involutive.
Qed.

Lemma hex_no_white (s : JsString.t) :
  forallb is_hex s = true ->
  forallb (fun c => negb (is_white c)) s = true.
Proof.
  induction s as [| c s IH]; simpl; [reflexivity |].
  intros H. apply andb_true_iff in H. destruct H as [Hc Hs].
  rewrite (proj1 (hex_char_facts c Hc)), (IH Hs). reflexivity.
Qed.

Lemma all_hex_no_hash (s : JsString.t) :
  all_hex s = true -> startsWithHash s = false.
Proof.
  destruct s as [| c s]; simpl; [reflexivity |].
  intros H. apply andb_true_iff in H. destruct H as [Hc _].
  apply is_hex_below in Hc as Hb.
  destruct (N.eqb_spec c 35) as [-> | Hn]; [discriminate | reflexivity].
Qed.

(** ** What [normalizeHex] accepts *)

Lemma length_double (s : JsString.t) :
  List.length (flat_map (fun c => [c; c]) s) = (2 * List.length s)%nat.
Proof. induction s as [| c s IH]; simpl; [reflexivity | rewrite IH; lia]. Qed.

Lemma startsWithHash_inv (t : JsString.t) :
  startsWithHash t = true -> t = 35%N :: slice1 t.
Proof.
  destruct t as [| c u]; simpl; [discriminate |].
  intros H. apply N.eqb_eq in H. now subst c.
Qed.

(** The result of [normalizeHex] on a body of hex digits *)
Lemma normalizeHex_body (x body : JsString.t) :
  trim x = body \/ trim x = 35%N :: body ->
  all_hex body = true ->
  normalizeHex x
  = if (List.length body =? 3)%nat
    then Some (35%N :: toUpperCase (flat_map (fun c => [c; c]) body))
    else if (List.length body =? 6)%nat
         then Some (35%N :: toUpperCase body) else None.
Proof.
  intros Ht Hall. unfold normalizeHex.
  assert (E : (if startsWithHash (trim x) then slice1 (trim x) else trim x)
              = body).
  { destruct Ht as [-> | ->]; [now rewrite all_hex_no_hash | reflexivity]. }
  rewrite E, Hall. cbn [negb].
  destruct (List.length body =? 3)%nat eqn:H3.
  - rewrite length_double. apply Nat.eqb_eq in H3. now rewrite H3.
  - destruct (List.length body =? 6)%nat; reflexivity.
Qed.

Lemma normalizeHex_spec (x y : JsString.t) :
  normalizeHex x = Some y <->
  exists body,
    (trim x = body \/ trim x = 35%N :: body)
    /\ all_hex body = true
    /\ ((List.length body = 6%nat /\ y = 35%N :: toUpperCase body)
        \/ (List.length body = 3%nat
            /\ y = 35%N :: toUpperCase (flat_map (fun c => [c; c]) body))).
Proof.
  split.
  - intros H.
    set (body := if startsWithHash (trim x) then slice1 (trim x) else trim x).
    assert (Ht : trim x = body \/ trim x = 35%N :: body).
    { subst body. destruct (startsWithHash (trim x)) eqn:Hs;
        [right; now apply startsWithHash_inv | now left]. }
    assert (Hall : all_hex body = true).
    { unfold normalizeHex in H. fold body in H.
      destruct (all_hex body); [reflexivity | discriminate]. }
    exists body. split; [exact Ht |]. split; [exact Hall |].
    rewrite (normalizeHex_body x body Ht Hall) in H.
    destruct (List.length body =? 3)%nat eqn:H3.
    + right. apply Nat.eqb_eq in H3. split; congruence.
    + destruct (List.length body =? 6)%nat eqn:H6; [| discriminate].
      left. apply Nat.eqb_eq in H6. split; congruence.
  - intros (body & Ht & Hall & [[Hl ->] | [Hl ->]]);
      rewrite (normalizeHex_body x body Ht Hall), Hl; reflexivity.
Qed.

(** X1. [normalizeHex] accepts exactly the strings that, once trimmed and
    with one leading ['#'] removed if there is one, are three or six hex
    digits; the result is ['#'] and the six digits (each shorthand digit
    doubled) in upper case. Everything else gives [None]. *)
Theorem normalizeHex_accepts (x y : JsString.t) :
  normalizeHex x = Some y <->
  exists body,
    (trim x = body \/ trim x = 35%N :: body)
    /\ all_hex body = true
    /\ ((List.length body = 6%nat /\ y = 35%N :: toUpperCase body)
        \/ (List.length body = 3%nat
            /\ y = 35%N :: toUpperCase (flat_map (fun c => [c; c]) body))).
Proof. apply normalizeHex_spec. Qed.

Lemma normalizeHex_trim (x x' : JsString.t) :
  trim x = trim x' -> normalizeHex x = normalizeHex x'.
Proof. intros E. unfold normalizeHex. now rewrite E. Qed.

Lemma normalizeHex_hash (s : JsString.t) :
  all_hex s = true -> normalizeHex (35%N :: s) = normalizeHex s.
Proof.
  intros H. pose proof (hex_no_white s (all_hex_forallb s H)) as Hw.
  rewrite (normalizeHex_body (35%N :: s) s), (normalizeHex_body s s);
    auto using trim_none.
Qed.

(** X2. The shorthand [#RGB] is read as [#RRGGBB]: for hex digits
    [c1 c2 c3], with or without the ['#'], the result is that of the six
    doubled digits. *)
Theorem normalizeHex_shorthand (c1 c2 c3 : char) :
  is_hex c1 = true -> is_hex c2 = true -> is_hex c3 = true ->
  normalizeHex [35%N; c1; c2; c3]
  = Some (35%N :: toUpperCase [c1; c1; c2; c2; c3; c3])
  /\ normalizeHex [c1; c2; c3] = normalizeHex [35%N; c1; c2; c3]
  /\ normalizeHex [35%N; c1; c1; c2; c2; c3; c3]
     = normalizeHex [35%N; c1; c2; c3].
Proof.
  intros H1 H2 H3.
  assert (A3 : all_hex [c1; c2; c3] = true)
    by (simpl; now rewrite H1, H2, H3).
  assert (A6 : all_hex [c1; c1; c2; c2; c3; c3] = true)
    by (simpl; now rewrite H1, H2, H3).
  rewrite !normalizeHex_hash by assumption.
  rewrite (normalizeHex_body [c1; c2; c3] [c1; c2; c3]),
          (normalizeHex_body [c1; c1; c2; c2; c3; c3] [c1; c1; c2; c2; c3; c3]);
    auto using trim_none, hex_no_white, all_hex_forallb.
Qed.

Lemma normalizeHex_shorthand_witness :
  normalizeHex (str "#a1f")
  = Some (35%N :: toUpperCase (str "aa11ff"))
  /\ normalizeHex (str "a1f") = normalizeHex (str "#a1f")
  /\ normalizeHex (str "#aa11ff") = normalizeHex (str "#a1f").
Proof. apply (normalizeHex_shorthand 97 49 102); reflexivity. Defined.

(** X3. White space before and after the colour is ignored, and so is one
    ['#'] in front of hex digits: the padded string normalizes as the bare
    one does. *)
Theorem normalizeHex_padding (w1 w2 s : JsString.t) :
  forallb is_white w1 = true -> forallb is_white w2 = true ->
  normalizeHex (w1 ++ s ++ w2) = normalizeHex s
  /\ (all_hex s = true ->
      normalizeHex (w1 ++ (35%N :: s) ++ w2) = normalizeHex s).
Proof.
  intros H1 H2. split.
  - apply normalizeHex_trim, trim_padding; assumption.
  - intros Hs. rewrite <- (normalizeHex_hash s Hs).
    apply normalizeHex_trim, trim_padding; assumption.
Qed.

Lemma normalizeHex_padding_witness :
  normalizeHex (str "  " ++ str "3b82f6" ++ [9%N; 10%N])
  = normalizeHex (str "3b82f6")
  /\ (all_hex (str "3b82f6") = true ->
      normalizeHex (str "  " ++ (35%N :: str "3b82f6") ++ [9%N; 10%N])
      = normalizeHex (str "3b82f6")).
Proof.
  apply (normalizeHex_padding (str "  ") [9%N; 10%N] (str "3b82f6"));
    reflexivity.
Defined.

(** ** The hex codec, composed *)

Lemma channel_exact_all : forallZ_below 256 channel_exact = true.
Proof. vm_compute. reflexivity. Qed.

Lemma Z2float_channel_inj (z1 z2 : Z) :
  (0 <= z1 <= 255)%Z -> (0 <= z2 <= 255)%Z ->
  Z2float z1 = Z2float z2 -> z1 = z2.
Proof.
  intros H1 H2 E.
  assert (E1 : channel_exact z1 = true)
    by (apply (forallZ_below_spec _ _ channel_exact_all); simpl; lia).
  assert (E2 : channel_exact z2 = true)
    by (apply (forallZ_below_spec _ _ channel_exact_all); simpl; lia).
  unfold channel_exact in E1, E2. rewrite E in E1.
  destruct (float2Z (Z2float z2)) as [z |]; [| discriminate].
  apply Z.eqb_eq in E1, E2. congruence.
Qed.

Lemma pair_print_ok_all :
  forall_below 71 (fun c1 => forall_below 71 (fun c2 => pair_print_ok c1 c2))
  = true.
Proof. vm_compute. reflexivity. Qed.

(** Two canonical digits, decoded and printed again, are the same digits. *)
Lemma toHex_parseInt16 (c1 c2 : char) :
  canonical_char c1 = true -> canonical_char c2 = true ->
  toUpperCase (toHex (parseInt16 [c1; c2])) = [c1; c2].
Proof.
  intros H1 H2.
  pose proof (forall_below_spec _ _ pair_print_ok_all c1 (canonical_below c1 H1))
    as E. cbv beta in E.
  pose proof (forall_below_spec _ _ E c2 (canonical_below c2 H2)) as E'.
  cbv beta in E'. unfold pair_print_ok in E'. rewrite H1, H2 in E'.
  cbn [andb implb] in E'. apply str_eqb_eq. exact E'.
Qed.

(** X4. Decoding a valid colour and printing it again gives its canonical
    form: [rgbToHex (hexToRgb s) = normalizeHex s]. *)
Theorem rgbToHex_hexToRgb (input n : JsString.t) (rgb : Rgb) :
  normalizeHex input = Some n ->
  hexToRgb input = Some rgb ->
  rgbToHex (r rgb) (g rgb) (b rgb) = n.
Proof.
  intros Hn H. rewrite (hexToRgb_normalized input n Hn) in H.
  pose proof (normalizeHex_canonical_result input n Hn) as Hc.
  destruct (canonical_inv n Hc)
    as (c1 & c2 & c3 & c4 & c5 & c6 & -> & H1 & H2 & H3 & H4 & H5 & H6).
  rewrite (hexToRgb_canonical _ _ _ _ _ _ Hc) in H. injection H as <-.
  rewrite rgbToHex_channels. cbn [r g b].
  rewrite !toHex_parseInt16 by assumption. reflexivity.
Qed.

Lemma rgbToHex_hexToRgb_witness :
  rgbToHex (r (mkRgb 51 170 255)) (g (mkRgb 51 170 255))
           (b (mkRgb 51 170 255)) = str "#33AAFF".
Proof.
  apply (rgbToHex_hexToRgb (str " 3af ") (str "#33AAFF") (mkRgb 51 170 255));
    vm_compute; reflexivity.
Defined.

(** X5. For integer channels of [0..255], [rgbToHex] prints a string in
    canonical form, and different triples print differently. *)
Theorem rgbToHex_canonical_injective (r1 g1 b1 r2 g2 b2 : Z) :
  (0 <= r1 <= 255)%Z -> (0 <= g1 <= 255)%Z -> (0 <= b1 <= 255)%Z ->
  (0 <= r2 <= 255)%Z -> (0 <= g2 <= 255)%Z -> (0 <= b2 <= 255)%Z ->
  is_canonical (rgbToHex (Z2float r1) (Z2float g1) (Z2float b1)) = true
  /\ (rgbToHex (Z2float r1) (Z2float g1) (Z2float b1)
      = rgbToHex (Z2float r2) (Z2float g2) (Z2float b2) ->
      r1 = r2 /\ g1 = g2 /\ b1 = b2).
Proof.
  intros Hr1 Hg1 Hb1 Hr2 Hg2 Hb2. rewrite !rgbToHex_channels.
  destruct (toHex_channel r1 Hr1) as (c1 & c2 & -> & K1 & K2 & E1).
  destruct (toHex_channel g1 Hg1) as (c3 & c4 & -> & K3 & K4 & E2).
  destruct (toHex_channel b1 Hb1) as (c5 & c6 & -> & K5 & K6 & E3).
  destruct (toHex_channel r2 Hr2) as (d1 & d2 & -> & _ & _ & F1).
  destruct (toHex_channel g2 Hg2) as (d3 & d4 & -> & _ & _ & F2).
  destruct (toHex_channel b2 Hb2) as (d5 & d6 & -> & _ & _ & F3).
  cbn [app]. split.
  - cbn [is_canonical List.length Nat.eqb forallb andb].
    rewrite K1, K2, K3, K4, K5, K6. reflexivity.
  - intros E. injection E as -> -> -> -> -> ->.
    repeat split; apply Z2float_channel_inj; congruence.
Qed.

Lemma rgbToHex_canonical_injective_witness :
  is_canonical (rgbToHex (Z2float 0) (Z2float 128) (Z2float 255)) = true
  /\ (rgbToHex (Z2float 0) (Z2float 128) (Z2float 255)
      = rgbToHex (Z2float 0) (Z2float 128) (Z2float 255) ->
      0%Z = 0%Z /\ 128%Z = 128%Z /\ 255%Z = 255%Z).
Proof. apply (rgbToHex_canonical_injective 0 128 255 0 128 255); lia. Defined.

(** X6. Every decode-facing function sees its input through the canonical
    form only: brightness, shades and the four derived palette entries of
    an accepted string are those of its normalized form. *)
Theorem results_of_canonical_form (input n : JsString.t) :
  normalizeHex input = Some n ->
  getColorBrightness input = getColorBrightness n
  /\ generateShades input = generateShades n
  /\ tl (generatePaletteFromBase input) = tl (generatePaletteFromBase n).
Proof.
  intros H. pose proof (hexToRgb_normalized input n H) as E.
  unfold getColorBrightness, generateShades, generatePaletteFromBase.
  rewrite E. destruct (hexToRgb n); repeat split.
Qed.

Lemma results_of_canonical_form_witness :
  getColorBrightness (str " 3af ") = getColorBrightness (str "#33AAFF")
  /\ generateShades (str " 3af ") = generateShades (str "#33AAFF")
  /\ tl (generatePaletteFromBase (str " 3af "))
     = tl (generatePaletteFromBase (str "#33AAFF")).
Proof.
  apply (results_of_canonical_form (str " 3af ") (str "#33AAFF")). reflexivity.
Defined.

Lemma hue_wrap_ok_all :
  forallZ_below 101 (fun sz => forallZ_below 101 (fun lz => hue_wrap_ok sz lz))
  = true.
Proof. vm_compute. reflexivity. Qed.

(** X7. The hue 360 that [rgbToHsl] can return is read by [hslToRgb] as
    hue 0: for integer saturation and lightness of [0..100] the two hues
    give the same colour. *)
Theorem hslToRgb_hue_360 (sz lz : Z) :
  (0 <= sz <= 100)%Z -> (0 <= lz <= 100)%Z ->
  hslToRgb 360 (Z2float sz) (Z2float lz) = hslToRgb 0 (Z2float sz) (Z2float lz).
Proof.
  intros Hs Hl.
  assert (Ks : (0 <= sz < Z.of_nat 101)%Z) by (simpl; lia).
  assert (Kl : (0 <= lz < Z.of_nat 101)%Z) by (simpl; lia).
  pose proof (forallZ_below_spec _ _ hue_wrap_ok_all sz Ks) as E.
  cbv beta in E. pose proof (forallZ_below_spec _ _ E lz Kl) as E'.
  cbv beta in E'. unfold hue_wrap_ok in E'. cbv zeta in E'.
  rewrite !andb_true_iff in E'. destruct E' as [[Er Eg] Eb].
  apply float_eqb_eq in Er, Eg, Eb.
  destruct (hslToRgb 360 (Z2float sz) (Z2float lz)) as [r1 g1 b1].
  destruct (hslToRgb 0 (Z2float sz) (Z2float lz)) as [r2 g2 b2].
  cbn [r g b] in Er, Eg, Eb. congruence.
Qed.

Lemma hslToRgb_hue_360_witness :
  hslToRgb 360 (Z2float 100) (Z2float 50) = hslToRgb 0 (Z2float 100) (Z2float 50).
Proof. apply (hslToRgb_hue_360 100 50); lia. Defined.

(** ** [getContrastColor] *)

Lemma add_nan (x : float) : x + nan = nan.
Proof.
  rewrite <- (FloatAxioms.SF2Prim_Prim2SF (x + nan)), FloatAxioms.add_spec.
  change (Prim2SF nan) with S754_nan.
  destruct (Prim2SF x); reflexivity.
Qed.

(** X8. On a colour in canonical form the text colour chosen by
    [getContrastColor] is the one [getColorBrightness] calls for: black on
    a light colour, white on a dark one. *)
Theorem getContrastColor_canonical (c : JsString.t) :
  is_canonical c = true ->
  getContrastColor c
  = match getColorBrightness c with
    | light => str "#000000"
    | dark => str "#FFFFFF"
    end.
Proof.
  intros H.
  destruct (canonical_inv c H) as (c1 & c2 & c3 & c4 & c5 & c6 & -> & _).
  unfold getColorBrightness. rewrite (hexToRgb_canonical _ _ _ _ _ _ H).
  unfold getContrastColor, luminance.
  cbn [removeFirstHash slice skipn firstn Nat.sub r g b].
  change (35 =? 35)%N with true. cbv iota.
  cbn [slice skipn firstn Nat.sub].
  destruct (0.5 <? _); reflexivity.
Qed.

Lemma getContrastColor_canonical_witness :
  getContrastColor (str "#3B82F6")
  = match getColorBrightness (str "#3B82F6") with
    | light => str "#000000"
    | dark => str "#FFFFFF"
    end.
Proof. apply (getContrastColor_canonical (str "#3B82F6")). reflexivity. Defined.

(** X9. [getContrastColor] does not normalize: when fewer than five
    characters are left after the first ['#'] is removed (a shorthand
    colour, an empty string), the blue channel is NaN, the comparison is
    false and the answer is white, also for ["#FFF"], which
    [getColorBrightness] finds light. *)
Theorem getContrastColor_short (hex : JsString.t) :
  (List.length (removeFirstHash hex) <= 4)%nat ->
  getContrastColor hex = str "#FFFFFF"
  /\ getColorBrightness (str "#FFF") = light.
Proof.
  intros H. split; [| vm_compute; reflexivity].
  unfold getContrastColor.
  assert (E : slice 4 6 (removeFirstHash hex) = []).
  { unfold slice. rewrite skipn_all2 by exact H. reflexivity. }
  rewrite E. change (parseInt16 []) with nan.
  change (0.114 * nan) with nan. rewrite add_nan.
  reflexivity.
Qed.

Lemma getContrastColor_short_witness :
  getContrastColor (str "#FFF") = str "#FFFFFF"
  /\ getColorBrightness (str "#FFF") = light.
Proof. apply (getContrastColor_short (str "#FFF")). simpl. lia. Defined.

(** ** [importBackup] *)

Lemma paletteError_valid (palette : Json) :
  paletteError palette = None <-> valid_palette palette.
Proof.
  unfold paletteError, valid_palette. split.
  - destruct palette as [| v | v | v | items | fields];
      try (cbn; discriminate).
    cbn [typeof_object is_null negb orb property].
    destruct (lookup (str "id") fields) as [[| ? | ? | idv | ? | ?] |] eqn:Hi;
      cbn [typeof_string negb orb]; try discriminate.
    destruct (lookup (str "name") fields) as [[| ? | ? | namev | ? | ?] |] eqn:Hn;
      cbn [typeof_string negb orb]; try discriminate.
    destruct (lookup (str "colors") fields) as [[| ? | ? | ? | cols | ?] |] eqn:Hc;
      cbn [isArray negb]; try discriminate.
    intros _. exists fields, idv, namev, cols. auto.
  - intros (fields & idv & namev & cols & -> & Hi & Hn & Hc).
    cbn [typeof_object is_null negb orb property].
    rewrite Hi, Hn, Hc. reflexivity.
Qed.

Lemma firstError_valid (items : list Json) :
  firstError items = None <-> Forall valid_palette items.
Proof.
  induction items as [| p items IH]; simpl.
  - split; [constructor | reflexivity].
  - destruct (paletteError p) as [m |] eqn:E.
    + split; [discriminate |]. intros H. inversion H as [| ? ? Hp _]; subst.
      apply paletteError_valid in Hp. congruence.
    + rewrite IH. split.
      * intros H. constructor; [now apply paletteError_valid | exact H].
      * intros H. now inversion H.
Qed.

(** X10. [importBackup] returns exactly when the text parses to an array
    whose every element is an object with a string [id], a string [name]
    and an array [colors]; it then returns that array as parsed. Nothing
    else is examined: neither the entries of [colors] nor any other
    field. *)
Theorem importBackup_returns (JSON_parse : JsString.t -> option Json)
        (jsonContent : JsString.t) (items : list Json) :
  importBackup JSON_parse jsonContent = Returned items
  <-> JSON_parse jsonContent = Some (JArray items)
      /\ Forall valid_palette items.
Proof.
  unfold importBackup. split.
  - destruct (JSON_parse jsonContent) as [[| v | v | v | l | f] |];
      try discriminate.
    destruct (firstError l) as [m |] eqn:E; [discriminate |].
    intros H. injection H as <-. split; [reflexivity |].
    now apply firstError_valid.
  - intros [-> Hv]. apply firstError_valid in Hv. now rewrite Hv.
Qed.

(** X11. The error thrown is that of the first element that fails, and an
    element is given up at its first failing check; a text that does not
    parse, and a value that is not an array, have their own messages. *)
Theorem importBackup_first_error (JSON_parse : JsString.t -> option Json)
        (jsonContent : JsString.t) (good rest : list Json) (bad : Json)
        (message : JsString.t) :
  JSON_parse jsonContent = Some (JArray (good ++ bad :: rest)) ->
  Forall valid_palette good ->
  paletteError bad = Some message ->
  importBackup JSON_parse jsonContent = Thrown message
  /\ (forall text, JSON_parse text = None ->
      importBackup JSON_parse text
      = Thrown (str "Invalid JSON format: please check your backup file"))
  /\ (forall text fields, JSON_parse text = Some (JObject fields) ->
      importBackup JSON_parse text
      = Thrown (str "Invalid backup format: expected an array of palettes")).
Proof.
  intros Hp Hg Hb. split; [| split].
  - unfold importBackup. rewrite Hp.
    assert (E : firstError (good ++ bad :: rest) = Some message).
    { clear Hp. induction Hg as [| p good Hv _ IH]; cbn [app firstError].
      - now rewrite Hb.
      - apply paletteError_valid in Hv. rewrite Hv. exact IH. }
    now rewrite E.
  - intros text Ht. unfold importBackup. now rewrite Ht.
  - intros text fields Ht. unfold importBackup. now rewrite Ht.
Qed.

Lemma importBackup_first_error_witness :
  let parse := fun _ : JsString.t =>
    Some (JArray ([JObject [(str "id", JString (str "p1"));
                            (str "name", JString (str "Sea"));
                            (str "colors", JArray [JNull])]]
                  ++ JObject [(str "id", JString (str "p2"))] :: [JNull])) in
  importBackup parse (str "[]")
  = Thrown (str "Invalid backup format: each palette must have an id and name")
  /\ (forall text, parse text = None ->
      importBackup parse text
      = Thrown (str "Invalid JSON format: please check your backup file"))
  /\ (forall text fields, parse text = Some (JObject fields) ->
      importBackup parse text
      = Thrown (str "Invalid backup format: expected an array of palettes")).
Proof.
  intros parse.
  apply (importBackup_first_error parse (str "[]")
           [JObject [(str "id", JString (str "p1"));
                     (str "name", JString (str "Sea"));
                     (str "colors", JArray [JNull])]]
           [JNull] (JObject [(str "id", JString (str "p2"))])).
  - reflexivity.
  - constructor; [| constructor].
    eexists _, _, _, _. repeat split; reflexivity.
  - reflexivity.
Defined.

(** ** The editor's state updaters *)

Lemma str_eqb_refl (a : JsString.t) : str_eqb a a = true.
Proof. induction a as [| x a IH]; simpl; [| rewrite N.eqb_refl]; auto. Qed.

Lemma str_eqb_neq (a c : JsString.t) : a <> c -> str_eqb a c = false.
Proof.
  intros H. destruct (str_eqb a c) eqn:E; [| reflexivity].
  now apply str_eqb_eq in E.
Qed.

Lemma assign_swap_right (l1 l2 : list VibeColor.t) (x y : VibeColor.t) :
  PaletteEditor.assign (S (List.length l1)) x
    (PaletteEditor.assign (List.length l1) y (l1 ++ x :: y :: l2))
  = l1 ++ y :: x :: l2.
Proof.
  induction l1 as [| c l1 IH]; [reflexivity |].
  cbn [List.length app PaletteEditor.assign]. f_equal. exact IH.
Qed.

Lemma assign_swap_left (l1 l2 : list VibeColor.t) (x y : VibeColor.t) :
  PaletteEditor.assign (List.length l1) y
    (PaletteEditor.assign (S (List.length l1)) x (l1 ++ x :: y :: l2))
  = l1 ++ y :: x :: l2.
Proof.
  induction l1 as [| c l1 IH]; [reflexivity |].
  cbn [List.length app PaletteEditor.assign]. f_equal. exact IH.
Qed.

(** [findIndex] returns the position of the first colour that passes. *)
Lemma findIndex_Some (p : VibeColor.t -> bool) (l : list VibeColor.t) (i : nat) :
  PaletteEditor.findIndex p l = Some i <->
  exists l1 x l2,
    l = l1 ++ x :: l2 /\ List.length l1 = i
    /\ p x = true /\ forallb (fun c => negb (p c)) l1 = true.
Proof.
  revert i. induction l as [| c l IH]; intros i; simpl.
  - split; [discriminate |]. intros (l1 & x & l2 & E & _).
    destruct l1; discriminate.
  - destruct (p c) eqn:Hc.
    + split.
      * intros E. injection E as <-. exists [], c, l. auto.
      * intros (l1 & x & l2 & E & <- & Hx & Hl).
        destruct l1 as [| c' l1]; [reflexivity |].
        injection E as <- _. simpl in Hl. rewrite Hc in Hl. discriminate.
    + split.
      * destruct (PaletteEditor.findIndex p l) as [j |] eqn:Ej; [| discriminate].
        intros E. injection E as <-.
        destruct (proj1 (IH j) eq_refl) as (l1 & x & l2 & -> & <- & Hx & Hl).
        exists (c :: l1), x, l2. simpl. rewrite Hc. auto.
      * intros (l1 & x & l2 & E & <- & Hx & Hl).
        destruct l1 as [| c' l1]; injection E as <- E; [congruence |].
        simpl in Hl. rewrite Hc in Hl. simpl in Hl.
        rewrite (proj2 (IH (List.length l1))); [reflexivity |].
        exists l1, x, l2. auto.
Qed.

Lemma findIndex_None (p : VibeColor.t -> bool) (l : list VibeColor.t) :
  PaletteEditor.findIndex p l = None <->
  forallb (fun c => negb (p c)) l = true.
Proof.
  induction l as [| c l IH]; simpl; [tauto |].
  destruct (p c); simpl.
  - split; discriminate.
  - rewrite <- IH. destruct (PaletteEditor.findIndex p l); simpl;
      split; congruence.
Qed.

Lemma nth_error_middle (l1 l2 : list VibeColor.t) (x : VibeColor.t) :
  nth_error (l1 ++ x :: l2) (List.length l1) = Some x.
Proof. induction l1; simpl; auto. Qed.

Lemma nth_error_next (l1 l2 : list VibeColor.t) (x : VibeColor.t) :
  nth_error (l1 ++ x :: l2) (S (List.length l1)) = nth_error l2 0.
Proof. induction l1; simpl; auto. Qed.

(** A move to the right that takes place swaps the colour with its right
    neighbour. *)
Lemma moveColor_right (colorId now : JsString.t) (prev : VibePalette.t)
      (l1 l2 : list VibeColor.t) (x y : VibeColor.t) :
  VibePalette.colors prev = l1 ++ x :: y :: l2 ->
  has_id colorId x = true ->
  forallb (fun c => negb (has_id colorId c)) l1 = true ->
  PaletteEditor.moveColor colorId PaletteEditor.Right now prev
  = PaletteEditor.withColors prev (l1 ++ y :: x :: l2) now.
Proof.
  intros E Hx Hl. unfold PaletteEditor.moveColor. rewrite E. cbv zeta.
  fold (has_id colorId).
  rewrite (proj2 (findIndex_Some (has_id colorId) _ (List.length l1)))
    by (exists l1, x, (y :: l2); auto).
  rewrite nth_error_middle, nth_error_next. cbn [nth_error].
  replace (List.length (l1 ++ x :: y :: l2) <=? S (List.length l1))%nat
    with false
    by (symmetry; apply Nat.leb_gt; rewrite length_app; simpl; lia).
  now rewrite assign_swap_right.
Qed.

(** A move to the left that takes place swaps the colour with its left
    neighbour. *)
Lemma moveColor_left (colorId now : JsString.t) (prev : VibePalette.t)
      (l1 l2 : list VibeColor.t) (x y : VibeColor.t) :
  VibePalette.colors prev = l1 ++ x :: y :: l2 ->
  has_id colorId y = true ->
  forallb (fun c => negb (has_id colorId c)) (l1 ++ [x]) = true ->
  PaletteEditor.moveColor colorId PaletteEditor.Left now prev
  = PaletteEditor.withColors prev (l1 ++ y :: x :: l2) now.
Proof.
  intros E Hy Hl. unfold PaletteEditor.moveColor. rewrite E. cbv zeta.
  fold (has_id colorId).
  assert (E' : l1 ++ x :: y :: l2 = (l1 ++ [x]) ++ y :: l2)
    by (now rewrite <- app_assoc).
  rewrite (proj2 (findIndex_Some (has_id colorId) _ (S (List.length l1))))
    by (exists (l1 ++ [x]), y, l2; rewrite length_app; simpl;
        repeat split; auto; lia).
  rewrite nth_error_middle, nth_error_next. cbn [nth_error].
  replace (List.length (l1 ++ x :: y :: l2) <=? List.length l1)%nat
    with false
    by (symmetry; apply Nat.leb_gt; rewrite length_app; simpl; lia).
  now rewrite assign_swap_left.
Qed.

(** What [moveColor] can do: nothing, or one swap of neighbours. *)
Lemma moveColor_cases (colorId : JsString.t) (direction : PaletteEditor.Direction)
      (now : JsString.t) (prev : VibePalette.t) :
  PaletteEditor.moveColor colorId direction now prev = prev
  \/ exists l1 x y l2,
       VibePalette.colors prev = l1 ++ x :: y :: l2
       /\ PaletteEditor.moveColor colorId direction now prev
          = PaletteEditor.withColors prev (l1 ++ y :: x :: l2) now.
Proof.
  destruct (PaletteEditor.findIndex (has_id colorId) (VibePalette.colors prev))
    as [i |] eqn:Ei.
  2: { left. unfold PaletteEditor.moveColor. fold (has_id colorId).
       now rewrite Ei. }
  destruct (proj1 (findIndex_Some _ _ _) Ei) as (l1 & x & l2 & E & <- & Hx & Hl).
  destruct direction.
  - destruct l1 as [| c l1] using rev_ind.
    + left. unfold PaletteEditor.moveColor. fold (has_id colorId).
      now rewrite Ei.
    + right. exists l1, c, x, l2. rewrite <- app_assoc in E. split; [exact E |].
      now apply moveColor_left.
  - destruct l2 as [| y l2].
    + left. unfold PaletteEditor.moveColor. fold (has_id colorId).
      rewrite Ei. cbv zeta.
      replace (List.length (VibePalette.colors prev) <=? S (List.length l1))%nat
        with true; [reflexivity |].
      symmetry. apply Nat.leb_le. rewrite E, length_app. simpl. lia.
    + right. exists l1, x, y, l2. split; [exact E |].
      now apply moveColor_right.
Qed.

(** X12. [moveColor] only reorders: the colours after the call are a
    permutation of those before, and the other fields but [updatedAt] are
    kept. When no colour has the identifier, when the colour is first and
    moves left, or last and moves right, the palette is returned as it is,
    time stamp included. *)
Theorem moveColor_reorders (colorId : JsString.t)
        (direction : PaletteEditor.Direction) (now : JsString.t)
        (prev : VibePalette.t) :
  let next := PaletteEditor.moveColor colorId direction now prev in
  let index :=
    PaletteEditor.findIndex (has_id colorId) (VibePalette.colors prev) in
  Permutation (VibePalette.colors prev) (VibePalette.colors next)
  /\ VibePalette.id next = VibePalette.id prev
  /\ VibePalette.name next = VibePalette.name prev
  /\ VibePalette.createdAt next = VibePalette.createdAt prev
  /\ (index = None -> next = prev)
  /\ (index = Some O -> direction = PaletteEditor.Left -> next = prev)
  /\ (index = Some (List.length (VibePalette.colors prev) - 1)%nat ->
      direction = PaletteEditor.Right -> next = prev).
Proof.
  cbv zeta. split; [| split; [| split; [| split; [| split; [| split]]]]].
  - destruct (moveColor_cases colorId direction now prev)
      as [-> | (l1 & x & y & l2 & E & ->)]; [reflexivity |].
    rewrite E. cbn [PaletteEditor.withColors VibePalette.colors].
    apply Permutation_app_head, perm_swap.
  - destruct (moveColor_cases colorId direction now prev)
      as [-> | (l1 & x & y & l2 & E & ->)]; reflexivity.
  - destruct (moveColor_cases colorId direction now prev)
      as [-> | (l1 & x & y & l2 & E & ->)]; reflexivity.
  - destruct (moveColor_cases colorId direction now prev)
      as [-> | (l1 & x & y & l2 & E & ->)]; reflexivity.
  - intros E. unfold PaletteEditor.moveColor. fold (has_id colorId).
    now rewrite E.
  - intros E ->. unfold PaletteEditor.moveColor. fold (has_id colorId).
    now rewrite E.
  - intros E ->. unfold PaletteEditor.moveColor. fold (has_id colorId).
    rewrite E. cbv zeta.
    replace (List.length (VibePalette.colors prev)
             <=? S (List.length (VibePalette.colors prev) - 1))%nat with true;
      [reflexivity |].
    symmetry. apply Nat.leb_le. lia.
Qed.

(** X13. With distinct identifiers a move is undone by the opposite move:
    left then right for a colour that is not first, right then left for a
    colour that is not last, give back the order of the colours. *)
Theorem moveColor_undo (colorId now1 now2 : JsString.t) (prev : VibePalette.t)
        (i : nat) :
  NoDup (map VibeColor.id (VibePalette.colors prev)) ->
  PaletteEditor.findIndex (has_id colorId) (VibePalette.colors prev) = Some i ->
  ((0 < i)%nat ->
   VibePalette.colors
     (PaletteEditor.moveColor colorId PaletteEditor.Right now2
        (PaletteEditor.moveColor colorId PaletteEditor.Left now1 prev))
   = VibePalette.colors prev)
  /\ ((S i < List.length (VibePalette.colors prev))%nat ->
      VibePalette.colors
        (PaletteEditor.moveColor colorId PaletteEditor.Left now2
           (PaletteEditor.moveColor colorId PaletteEditor.Right now1 prev))
      = VibePalette.colors prev).
Proof.
  intros Hnd Ei.
  destruct (proj1 (findIndex_Some _ _ _) Ei) as (l1 & x & l2 & E & <- & Hx & Hl).
  split.
  - intros Hi. destruct l1 as [| c l1] using rev_ind; [simpl in Hi; lia |].
    clear IHl1. rewrite <- app_assoc in E. cbn [app] in E.
    rewrite (moveColor_left colorId now1 prev l1 l2 c x E Hx Hl).
    rewrite forallb_app in Hl. apply andb_true_iff in Hl. destruct Hl as [Hl _].
    rewrite (moveColor_right colorId now2 _ l1 l2 x c);
      [now rewrite E | reflexivity | exact Hx | exact Hl].
  - intros Hi. destruct l2 as [| y l2];
      [rewrite E, length_app in Hi; simpl in Hi; lia |].
    rewrite (moveColor_right colorId now1 prev l1 l2 x y E Hx Hl).
    assert (Hy : has_id colorId y = false).
    { unfold has_id in *. apply str_eqb_eq in Hx. apply str_eqb_neq.
      intros Ey. rewrite E, map_app in Hnd. apply NoDup_app_remove_l in Hnd.
      cbn [map] in Hnd. inversion Hnd as [| ? ? Hin _]; subst.
      apply Hin. left. congruence. }
    rewrite (moveColor_left colorId now2 _ l1 l2 y x);
      [now rewrite E | reflexivity | exact Hx |].
    rewrite forallb_app, Hl. simpl. now rewrite Hy.
Qed.

Lemma moveColor_undo_witness :
  let color := fun name =>
    VibeColor.mk (str name) (str "#3B82F6") None None in
  let prev :=
    VibePalette.mk (str "p") (str "Sea") None None
                   [color "a"; color "b"; color "c"]%string
                   (str "t0") (str "t0") in
  ((0 < 1)%nat ->
   VibePalette.colors
     (PaletteEditor.moveColor (str "b") PaletteEditor.Right (str "t2")
        (PaletteEditor.moveColor (str "b") PaletteEditor.Left (str "t1") prev))
   = VibePalette.colors prev)
  /\ ((2 < List.length (VibePalette.colors prev))%nat ->
      VibePalette.colors
        (PaletteEditor.moveColor (str "b") PaletteEditor.Left (str "t2")
           (PaletteEditor.moveColor (str "b") PaletteEditor.Right (str "t1") prev))
      = VibePalette.colors prev).
Proof.
  intros color prev.
  apply (moveColor_undo (str "b") (str "t1") (str "t2") prev 1).
  - repeat constructor; simpl; intuition discriminate.
  - reflexivity.
Defined.

(** X14. The updaters keep every stored hex in canonical form: if all
    colours of the palette are canonical, they still are after [addColor],
    [deleteColor], [moveColor], and after the blur of a hex field, whatever
    was typed into it. *)
Theorem editor_keeps_canonical (prev : VibePalette.t)
        (colorId newId now hexInput : JsString.t)
        (direction : PaletteEditor.Direction) (color : VibeColor.t) :
  canonical_palette prev ->
  canonical_palette (PaletteEditor.addColor newId now prev)
  /\ canonical_palette (PaletteEditor.deleteColor colorId now prev)
  /\ canonical_palette (PaletteEditor.moveColor colorId direction now prev)
  /\ canonical_palette
       (PaletteEditor.runEffects (VibeColor.id color) now
          (PaletteEditor.handleHexBlur hexInput color) prev).
Proof.
  unfold canonical_palette. intros H. split; [| split; [| split]].
  - cbn [PaletteEditor.addColor PaletteEditor.withColors VibePalette.colors].
    apply Forall_app. split; [exact H |]. constructor; [reflexivity | constructor].
  - cbn [PaletteEditor.deleteColor PaletteEditor.withColors VibePalette.colors].
    rewrite Forall_forall in *. intros c Hc. apply filter_In in Hc.
    apply H, Hc.
  - destruct (moveColor_cases colorId direction now prev)
      as [-> | (l1 & x & y & l2 & E & ->)]; [exact H |].
    rewrite E in H. cbn [PaletteEditor.withColors VibePalette.colors].
    refine (Permutation_Forall _ H).
    apply Permutation_app_head, perm_swap.
  - unfold PaletteEditor.handleHexBlur.
    destruct (normalizeHex hexInput) as [[| c n] |] eqn:En; try exact H.
    cbn [PaletteEditor.runEffects PaletteEditor.updateColor
         PaletteEditor.withColors VibePalette.colors].
    apply Forall_map. rewrite Forall_forall in *. intros x Hx.
    destruct (str_eqb (VibeColor.id x) (VibeColor.id color)).
    + cbn [PaletteEditor.merge PaletteEditor.u_hex VibeColor.hex].
      exact (normalizeHex_canonical_result hexInput _ En).
    + now apply H.
Qed.

Lemma editor_keeps_canonical_witness :
  let color := VibeColor.mk (str "a") (str "#3B82F6") None None in
  let prev :=
    VibePalette.mk (str "p") (str "Sea") None None [color] (str "t0") (str "t0") in
  canonical_palette (PaletteEditor.addColor (str "n") (str "t1") prev)
  /\ canonical_palette (PaletteEditor.deleteColor (str "a") (str "t1") prev)
  /\ canonical_palette
       (PaletteEditor.moveColor (str "a") PaletteEditor.Left (str "t1") prev)
  /\ canonical_palette
       (PaletteEditor.runEffects (VibeColor.id color) (str "t1")
          (PaletteEditor.handleHexBlur (str " abc") color) prev).
Proof.
  intros color prev.
  apply (editor_keeps_canonical prev (str "a") (str "n") (str "t1")
           (str " abc") PaletteEditor.Left color).
  constructor; [reflexivity | constructor].
Defined.

(** The blur of a hex field commits the normalized form of what was
    typed, to the colours that have the row's identifier and to nothing
    else; text that does not normalize changes nothing in the palette: the
    field goes back to the stored hex and a toast is shown. *)
Theorem handleHexBlur_commit (hexInput now : JsString.t) (color : VibeColor.t)
        (prev : VibePalette.t) :
  let effects := PaletteEditor.handleHexBlur hexInput color in
  let next := PaletteEditor.runEffects (VibeColor.id color) now effects prev in
  match normalizeHex hexInput with
  | Some n =>
      effects = [PaletteEditor.OnUpdate
                   (PaletteEditor.mkUpdates None (Some n) None None);
                 PaletteEditor.SetHexInput n]
      /\ VibePalette.colors next
         = map (fun c =>
                  if has_id (VibeColor.id color) c
                  then VibeColor.mk (VibeColor.id c) n (VibeColor.label c)
                                    (VibeColor.role c)
                  else c)
               (VibePalette.colors prev)
  | None =>
      effects = [PaletteEditor.SetHexInput (VibeColor.hex color);
                 PaletteEditor.ShowToast (str "Invalid hex color")]
      /\ next = prev
  end.
Proof.
  cbv zeta. unfold PaletteEditor.handleHexBlur.
  destruct (normalizeHex hexInput) as [n |] eqn:En; [| split; reflexivity].
  pose proof (normalizeHex_canonical_result hexInput n En) as Hc.
  destruct n as [| c n]; [discriminate |].
  split; reflexivity.
Qed.

(** X15. [deleteColor] leaves no colour with the identifier, and undoes
    [addColor]: deleting the identifier just added, when no other colour
    has it, gives back the colours there were. *)
Theorem deleteColor_addColor (newId colorId now1 now2 : JsString.t)
        (prev : VibePalette.t) :
  ~ In newId (map VibeColor.id (VibePalette.colors prev)) ->
  VibePalette.colors
    (PaletteEditor.deleteColor newId now2
       (PaletteEditor.addColor newId now1 prev))
  = VibePalette.colors prev
  /\ ~ In colorId
        (map VibeColor.id
           (VibePalette.colors (PaletteEditor.deleteColor colorId now1 prev))).
Proof.
  intros Hfresh. split.
  - cbn [PaletteEditor.deleteColor PaletteEditor.addColor
         PaletteEditor.withColors VibePalette.colors].
    rewrite filter_app. cbn [filter VibeColor.id].
    rewrite str_eqb_refl. cbn [negb]. rewrite app_nil_r.
    induction (VibePalette.colors prev) as [| c l IH]; [reflexivity |].
    cbn [filter map] in *. rewrite str_eqb_neq by (intros E; apply Hfresh; now left).
    cbn [negb]. f_equal. apply IH. intros Hin. apply Hfresh. now right.
  - cbn [PaletteEditor.deleteColor PaletteEditor.withColors VibePalette.colors].
    intros Hin. apply in_map_iff in Hin. destruct Hin as (c & Ec & Hc).
    apply filter_In in Hc. destruct Hc as [_ Hc].
    rewrite <- Ec, str_eqb_refl in Hc. discriminate.
Qed.

Lemma deleteColor_addColor_witness :
  let prev :=
    VibePalette.mk (str "p") (str "Sea") None None
                   [VibeColor.mk (str "a") (str "#3B82F6") None None]
                   (str "t0") (str "t0") in
  VibePalette.colors
    (PaletteEditor.deleteColor (str "n") (str "t2")
       (PaletteEditor.addColor (str "n") (str "t1") prev))
  = VibePalette.colors prev
  /\ ~ In (str "a")
        (map VibeColor.id
           (VibePalette.colors
              (PaletteEditor.deleteColor (str "a") (str "t1") prev))).
Proof.
  intros prev.
  apply (deleteColor_addColor (str "n") (str "a") (str "t1") (str "t2") prev).
  simpl. intuition discriminate.
Defined.

Lemma dropWhile_nil (p : char -> bool) (s : JsString.t) :
  dropWhile p s = [] <-> forallb p s = true.
Proof.
  induction s as [| c s IH]; simpl; [tauto |].
  destruct (p c); simpl; [exact IH | split; discriminate].
Qed.

Lemma dropWhile_head (p : char -> bool) (s : JsString.t) :
  dropWhile p s = [] \/ forallb p (dropWhile p s) = false.
Proof.
  induction s as [| c s IH]; simpl; [now left |].
  destruct (p c) eqn:Hc; [exact IH | right; simpl; now rewrite Hc].
Qed.

(** [trim] leaves nothing exactly of the strings made of white space. *)
Lemma trim_nil (s : JsString.t) :
  trim s = [] <-> forallb is_white s = true.
Proof.
  unfold trim. rewrite <- dropWhile_nil. split.
  - intros H. apply (f_equal (@rev N)) in H. rewrite rev_involutive in H.
    cbn [rev] in H. apply dropWhile_nil in H. rewrite forallb_rev in H.
    destruct (dropWhile_head is_white s) as [E | E]; [exact E | congruence].
  - intros ->. reflexivity.
Qed.

(** X16. [handleSave] refuses a palette exactly when its name is empty or
    made of white space only: it then shows the toast and does not call
    [onSave]; any other palette is handed to [onSave] unchanged. *)
Theorem handleSave_requires_name (editedPalette : VibePalette.t) :
  (PaletteEditor.handleSave editedPalette
   = [PaletteEditor.ShowToast (str "Palette name is required")]
   <-> forallb is_white (VibePalette.name editedPalette) = true)
  /\ (PaletteEditor.handleSave editedPalette
      = [PaletteEditor.OnSave editedPalette;
         PaletteEditor.ShowToast (str "Palette saved!")]
      <-> forallb is_white (VibePalette.name editedPalette) = false).
Proof.
  unfold PaletteEditor.handleSave.
  pose proof (trim_nil (VibePalette.name editedPalette)) as T.
  destruct (trim (VibePalette.name editedPalette)) as [| c u].
  - rewrite (proj1 T eq_refl). split; split; intros; try reflexivity;
      discriminate.
  - destruct (forallb is_white (VibePalette.name editedPalette)).
    + discriminate (proj2 T eq_refl).
    + split; split; intros; try reflexivity; discriminate.
Qed.

(** X17. An update that carries no [id] keeps the identifiers of the
    colours, in their order, and touches only the colours that have the
    identifier given: the others are the same after the call. *)
Theorem updateColor_keeps_ids (colorId now : JsString.t)
        (updates : PaletteEditor.Updates) (prev : VibePalette.t) :
  PaletteEditor.u_id updates = None ->
  let next := PaletteEditor.updateColor colorId updates now prev in
  map VibeColor.id (VibePalette.colors next)
  = map VibeColor.id (VibePalette.colors prev)
  /\ filter (fun c => negb (has_id colorId c)) (VibePalette.colors next)
     = filter (fun c => negb (has_id colorId c)) (VibePalette.colors prev).
Proof.
  intros Hu. cbv zeta. unfold has_id.
  cbn [PaletteEditor.updateColor PaletteEditor.withColors VibePalette.colors].
  induction (VibePalette.colors prev) as [| c l [IH1 IH2]]; [split; reflexivity |].
  cbn [map filter].
  destruct (str_eqb (VibeColor.id c) colorId) eqn:Ec.
  - assert (Em : VibeColor.id (PaletteEditor.merge c updates) = VibeColor.id c)
      by (unfold PaletteEditor.merge; now rewrite Hu).
    rewrite Em, Ec. cbn [negb]. split; [now rewrite IH1 | exact IH2].
  - rewrite Ec. cbn [negb]. split; now f_equal.
Qed.

Lemma updateColor_keeps_ids_witness :
  let prev :=
    VibePalette.mk (str "p") (str "Sea") None None
                   [VibeColor.mk (str "a") (str "#3B82F6") None None;
                    VibeColor.mk (str "b") (str "#000000") None None]
                   (str "t0") (str "t0") in
  let updates := PaletteEditor.mkUpdates None (Some (str "#FFFFFF")) None None in
  let next := PaletteEditor.updateColor (str "a") updates (str "t1") prev in
  map VibeColor.id (VibePalette.colors next)
  = map VibeColor.id (VibePalette.colors prev)
  /\ filter (fun c => negb (has_id (str "a") c)) (VibePalette.colors next)
     = filter (fun c => negb (has_id (str "a") c)) (VibePalette.colors prev).
Proof.
  intros prev updates.
  apply (updateColor_keeps_ids (str "a") (str "t1") updates prev). reflexivity.
Defined.

(** ** Ranges of the colour-space conversions *)

Lemma small_int_ok_all : forallZ_below 361 small_int_ok = true.
Proof. vm_compute. reflexivity. Qed.

(** A number that passes [int_below] is an integer of the range. *)
Lemma int_below_spec (bound : int) (x : float) :
  (to_Z bound <= 360)%Z ->
  int_below bound x = true ->
  exists z, (0 <= z <= to_Z bound)%Z /\ x = Z2float z.
Proof.
  intros Hb H. unfold int_below in H. cbv zeta in H.
  apply andb_true_iff in H. destruct H as [He Hl].
  apply float_eqb_eq in He. apply Uint63.leb_spec in Hl.
  pose proof (Uint63.to_Z_bounded (int_of x)) as Hi.
  exists (to_Z (int_of x)). split; [lia |].
  rewrite He at 1. rewrite <- (Uint63.of_to_Z (int_of x)) at 1.
  apply float_eqb_eq.
  apply (forallZ_below_spec _ small_int_ok small_int_ok_all). simpl. lia.
Qed.

Lemma numbers_In (n : nat) (z : Z) :
  (0 <= z < Z.of_nat n)%Z -> In (Z2float z) (numbers n).
Proof.
  intros Hz. unfold numbers. apply in_map_iff.
  exists (Z.to_nat z). rewrite Z2Nat.id by lia.
  split; [reflexivity | apply in_seq; lia].
Qed.

Lemma hslToRgb_grid :
  hslToRgb_grid_ok (numbers 361) (numbers 101) (numbers 101) = true.
Proof. vm_cast_no_check (eq_refl true). Qed.

Lemma hslToRgb_grid_ok_spec (hs ss ls : list float) :
  hslToRgb_grid_ok hs ss ls = true ->
  forall hv sv lv, In hv hs -> In sv ss -> In lv ls ->
  let c := hslToRgb hv sv lv in
  int_below 255 (r c) = true /\ int_below 255 (g c) = true
  /\ int_below 255 (b c) = true.
Proof.
  unfold hslToRgb_grid_ok. intros K hv sv lv Hh Hs Hl.
  rewrite forallb_forall in K. specialize (K sv Hs). cbv beta in K.
  rewrite forallb_forall in K. specialize (K lv Hl). cbv beta in K.
  rewrite forallb_forall in K. specialize (K hv Hh). cbv beta zeta in K.
  cbv zeta. rewrite !andb_true_iff in K. tauto.
Qed.

Lemma rgbToHex_is_canonical (rz gz bz : Z) :
  (0 <= rz <= 255)%Z -> (0 <= gz <= 255)%Z -> (0 <= bz <= 255)%Z ->
  is_canonical (rgbToHex (Z2float rz) (Z2float gz) (Z2float bz)) = true.
Proof.
  intros Hr Hg Hb. rewrite rgbToHex_channels.
  destruct (toHex_channel rz Hr) as (c1 & c2 & -> & K1 & K2 & _).
  destruct (toHex_channel gz Hg) as (c3 & c4 & -> & K3 & K4 & _).
  destruct (toHex_channel bz Hb) as (c5 & c6 & -> & K5 & K6 & _).
  cbn [app is_canonical List.length Nat.eqb forallb andb].
  rewrite K1, K2, K3, K4, K5, K6. reflexivity.
Qed.

(** On the grid of integer hues, saturations and lightnesses, [hslToRgb]
    returns integer channels of [0..255], printed in canonical form. *)
Lemma hslToRgb_grid_range (hz sz lz : Z) :
  (0 <= hz <= 360)%Z -> (0 <= sz <= 100)%Z -> (0 <= lz <= 100)%Z ->
  exists rz gz bz,
    (0 <= rz <= 255)%Z /\ (0 <= gz <= 255)%Z /\ (0 <= bz <= 255)%Z
    /\ hslToRgb (Z2float hz) (Z2float sz) (Z2float lz)
       = mkRgb (Z2float rz) (Z2float gz) (Z2float bz)
    /\ is_canonical
         (let c := hslToRgb (Z2float hz) (Z2float sz) (Z2float lz) in
          rgbToHex (r c) (g c) (b c)) = true.
Proof.
  intros Hh Hs Hl.
  assert (Kh : In (Z2float hz) (numbers 361))
    by (apply numbers_In; simpl; lia).
  assert (Ks : In (Z2float sz) (numbers 101))
    by (apply numbers_In; simpl; lia).
  assert (Kl : In (Z2float lz) (numbers 101))
    by (apply numbers_In; simpl; lia).
  destruct (hslToRgb_grid_ok_spec _ _ _ hslToRgb_grid _ _ _ Kh Ks Kl)
    as (Er & Eg & Eb).
  assert (B : (to_Z 255%uint63 <= 360)%Z) by (vm_compute; discriminate).
  destruct (int_below_spec _ _ B Er) as (rz & Hr & Er').
  destruct (int_below_spec _ _ B Eg) as (gz & Hg & Eg').
  destruct (int_below_spec _ _ B Eb) as (bz & Hb & Eb').
  change (to_Z 255%uint63) with 255%Z in Hr, Hg, Hb.
  exists rz, gz, bz. do 3 (split; [assumption |]).
  destruct (hslToRgb (Z2float hz) (Z2float sz) (Z2float lz)) as [r0 g0 b0].
  cbn [r g b] in *. subst r0 g0 b0. split; [reflexivity |].
  now apply rgbToHex_is_canonical.
Qed.

Lemma hslToRgb_grid_canonical (hz sz lz : Z) :
  (0 <= hz <= 360)%Z -> (0 <= sz <= 100)%Z -> (0 <= lz <= 100)%Z ->
  is_canonical
    (let c := hslToRgb (Z2float hz) (Z2float sz) (Z2float lz) in
     rgbToHex (r c) (g c) (b c)) = true.
Proof.
  intros Hh Hs Hl.
  destruct (hslToRgb_grid_range hz sz lz Hh Hs Hl)
    as (? & ? & ? & ? & ? & ? & ? & C).
  exact C.
Qed.

(** X18. For an integer hue of [0..360] and integer saturation and
    lightness of [0..100], [hslToRgb] returns three integer channels of
    [0..255], and [rgbToHex] prints them as a colour in canonical form. *)
Theorem hslToRgb_range (hz sz lz : Z) :
  (0 <= hz <= 360)%Z -> (0 <= sz <= 100)%Z -> (0 <= lz <= 100)%Z ->
  exists rz gz bz,
    (0 <= rz <= 255)%Z /\ (0 <= gz <= 255)%Z /\ (0 <= bz <= 255)%Z
    /\ hslToRgb (Z2float hz) (Z2float sz) (Z2float lz)
       = mkRgb (Z2float rz) (Z2float gz) (Z2float bz)
    /\ is_canonical
         (let c := hslToRgb (Z2float hz) (Z2float sz) (Z2float lz) in
          rgbToHex (r c) (g c) (b c)) = true.
Proof. apply hslToRgb_grid_range. Qed.

Lemma hslToRgb_range_witness :
  exists rz gz bz,
    (0 <= rz <= 255)%Z /\ (0 <= gz <= 255)%Z /\ (0 <= bz <= 255)%Z
    /\ hslToRgb (Z2float 217) (Z2float 91) (Z2float 60)
       = mkRgb (Z2float rz) (Z2float gz) (Z2float bz)
    /\ is_canonical
         (let c := hslToRgb (Z2float 217) (Z2float 91) (Z2float 60) in
          rgbToHex (r c) (g c) (b c)) = true.
Proof. apply (hslToRgb_range 217 91 60); lia. Defined.

Lemma unit_channels_In (z : Z) :
  (0 <= z <= 255)%Z -> In (z, unit_channel z) unit_channels.
Proof.
  intros Hz. unfold unit_channels. apply in_map_iff.
  exists (Z.to_nat z). rewrite Z2Nat.id by lia.
  split; [reflexivity | apply in_seq; lia].
Qed.

Lemma all_pairs_spec (ok : Z * float -> Z * float -> bool)
      (table : list (Z * float)) :
  all_pairs ok table = true ->
  forall p q, In p table -> In q table -> ok p q = true.
Proof.
  unfold all_pairs. intros K p q Hp Hq.
  rewrite forallb_forall in K. specialize (K p Hp). cbv beta in K.
  rewrite forallb_forall in K. exact (K q Hq).
Qed.

Lemma extremes_ok_all : all_pairs extremes_ok unit_channels = true.
Proof. vm_cast_no_check (eq_refl true). Qed.

Lemma sl_ok_all : all_pairs sl_ok unit_channels = true.
Proof. vm_cast_no_check (eq_refl true). Qed.

Lemma unit_extremes (i j : Z) :
  (0 <= i <= 255)%Z -> (0 <= j <= 255)%Z ->
  Math_max (unit_channel i) (unit_channel j) = unit_channel (Z.max i j)
  /\ Math_min (unit_channel i) (unit_channel j) = unit_channel (Z.min i j).
Proof.
  intros Hi Hj.
  pose proof (all_pairs_spec _ _ extremes_ok_all _ _
                (unit_channels_In i Hi) (unit_channels_In j Hj)) as K.
  unfold extremes_ok in K. cbn [fst snd] in K.
  apply andb_true_iff in K. destruct K as [K1 K2].
  apply float_eqb_eq in K1, K2. rewrite K1, K2.
  destruct (Z.leb_spec i j).
  - now rewrite Z.max_r, Z.min_l by lia.
  - now rewrite Z.max_l, Z.min_r by lia.
Qed.

Lemma rgbToHsl_s_l (r0 g0 b0 : float) :
  let max := Math_max (Math_max (r0 / 255) (g0 / 255)) (b0 / 255) in
  let min := Math_min (Math_min (r0 / 255) (g0 / 255)) (b0 / 255) in
  s (rgbToHsl r0 g0 b0) = saturation_of max min
  /\ l (rgbToHsl r0 g0 b0) = lightness_of max min.
Proof.
  cbv zeta. unfold rgbToHsl, saturation_of, lightness_of.
  destruct (negb (_ =? _)); split; reflexivity.
Qed.

(** For every RGB triple of integers of [0..255], the saturation and the
    lightness that [rgbToHsl] returns are integers of [0..100]. *)
Lemma rgbToHsl_s_l_range (rz gz bz : Z) :
  (0 <= rz <= 255)%Z -> (0 <= gz <= 255)%Z -> (0 <= bz <= 255)%Z ->
  exists sz lz,
    (0 <= sz <= 100)%Z /\ (0 <= lz <= 100)%Z
    /\ s (rgbToHsl (Z2float rz) (Z2float gz) (Z2float bz)) = Z2float sz
    /\ l (rgbToHsl (Z2float rz) (Z2float gz) (Z2float bz)) = Z2float lz.
Proof.
  intros Hr Hg Hb.
  destruct (rgbToHsl_s_l (Z2float rz) (Z2float gz) (Z2float bz)) as [Es El].
  fold (unit_channel rz) (unit_channel gz) (unit_channel bz) in Es, El.
  destruct (unit_extremes rz gz Hr Hg) as [M1 N1]. rewrite M1, N1 in Es, El.
  destruct (unit_extremes (Z.max rz gz) bz ltac:(lia) Hb) as [M2 _].
  destruct (unit_extremes (Z.min rz gz) bz ltac:(lia) Hb) as [_ N2].
  rewrite M2, N2 in Es, El.
  set (M := Z.max (Z.max rz gz) bz) in *.
  set (m := Z.min (Z.min rz gz) bz) in *.
  assert (HM : (0 <= M <= 255)%Z) by (subst M; lia).
  assert (Hm : (0 <= m <= 255)%Z) by (subst m; lia).
  pose proof (all_pairs_spec _ _ sl_ok_all _ _
                (unit_channels_In M HM) (unit_channels_In m Hm)) as K.
  unfold sl_ok in K. cbn [fst snd] in K.
  replace (m <=? M)%Z with true in K
    by (symmetry; apply Z.leb_le; subst M m; lia).
  apply andb_true_iff in K. destruct K as [Ks Kl].
  assert (B : (to_Z 100%uint63 <= 360)%Z) by (vm_compute; discriminate).
  destruct (int_below_spec _ _ B Ks) as (sz & Hs & Es').
  destruct (int_below_spec _ _ B Kl) as (lz & Hl & El').
  change (to_Z 100%uint63) with 100%Z in Hs, Hl.
  exists sz, lz. rewrite Es, El. auto.
Qed.

Lemma choice_ok_all : all_pairs choice_ok unit_channels = true.
Proof. vm_cast_no_check (eq_refl true). Qed.

Lemma unit_choice (i j : Z) :
  (0 <= i <= 255)%Z -> (0 <= j <= 255)%Z ->
  Math_max (unit_channel i) (unit_channel j)
  = larger (unit_channel i) (unit_channel j)
  /\ Math_min (unit_channel i) (unit_channel j)
     = smaller (unit_channel i) (unit_channel j).
Proof.
  intros Hi Hj.
  pose proof (all_pairs_spec _ _ choice_ok_all _ _
                (unit_channels_In i Hi) (unit_channels_In j Hj)) as K.
  unfold choice_ok in K. cbn [fst snd] in K.
  apply andb_true_iff in K. destruct K as [K1 K2].
  split; now apply float_eqb_eq.
Qed.

Lemma unit_larger (i j : Z) :
  (0 <= i <= 255)%Z -> (0 <= j <= 255)%Z ->
  exists k, (0 <= k <= 255)%Z
            /\ larger (unit_channel i) (unit_channel j) = unit_channel k.
Proof.
  intros Hi Hj. unfold larger.
  destruct (unit_channel i <? unit_channel j); eauto.
Qed.

Lemma unit_smaller (i j : Z) :
  (0 <= i <= 255)%Z -> (0 <= j <= 255)%Z ->
  exists k, (0 <= k <= 255)%Z
            /\ smaller (unit_channel i) (unit_channel j) = unit_channel k.
Proof.
  intros Hi Hj. unfold smaller.
  destruct (unit_channel i <? unit_channel j); eauto.
Qed.

Lemma unit_floats_In (z : Z) :
  (0 <= z <= 255)%Z -> In (unit_channel z) (map snd unit_channels).
Proof.
  intros Hz. apply in_map_iff. exists (z, unit_channel z).
  split; [reflexivity | now apply unit_channels_In].
Qed.

Lemma hue_cube :
  hue_cube_ok (map snd unit_channels) (map snd unit_channels)
              (map snd unit_channels) = true.
Proof. vm_cast_no_check (eq_refl true). Qed.

Lemma hue_cube_ok_spec (rs gs bs : list float) :
  hue_cube_ok rs gs bs = true ->
  forall xr xg xb, In xr rs -> In xg gs -> In xb bs ->
  int_below 360 (hue_of xr xg xb (larger (larger xr xg) xb)
                        (smaller (smaller xr xg) xb)) = true.
Proof.
  unfold hue_cube_ok. intros K xr xg xb Hr Hg Hb.
  rewrite forallb_forall in K. specialize (K xr Hr). cbv beta in K.
  rewrite forallb_forall in K. specialize (K xg Hg). cbv beta zeta in K.
  rewrite forallb_forall in K. exact (K xb Hb).
Qed.

Lemma rgbToHsl_h (r0 g0 b0 : float) :
  h (rgbToHsl r0 g0 b0)
  = hue_of (r0 / 255) (g0 / 255) (b0 / 255)
           (Math_max (Math_max (r0 / 255) (g0 / 255)) (b0 / 255))
           (Math_min (Math_min (r0 / 255) (g0 / 255)) (b0 / 255)).
Proof.
  unfold rgbToHsl, hue_of. destruct (negb (_ =? _)); reflexivity.
Qed.

(** For every RGB triple of integers of [0..255], the hue that [rgbToHsl]
    returns is an integer of [0..360]. *)
Lemma rgbToHsl_h_range (rz gz bz : Z) :
  (0 <= rz <= 255)%Z -> (0 <= gz <= 255)%Z -> (0 <= bz <= 255)%Z ->
  exists hz,
    (0 <= hz <= 360)%Z
    /\ h (rgbToHsl (Z2float rz) (Z2float gz) (Z2float bz)) = Z2float hz.
Proof.
  intros Hr Hg Hb. rewrite rgbToHsl_h.
  fold (unit_channel rz) (unit_channel gz) (unit_channel bz).
  destruct (unit_choice rz gz Hr Hg) as [M1 N1]. rewrite M1, N1.
  destruct (unit_larger rz gz Hr Hg) as (a & Ha & Ea).
  destruct (unit_smaller rz gz Hr Hg) as (n & Hn & En).
  pose proof (proj1 (unit_choice a bz Ha Hb)) as M2.
  pose proof (proj2 (unit_choice n bz Hn Hb)) as N2.
  rewrite <- Ea in M2. rewrite <- En in N2. rewrite M2, N2.
  pose proof (hue_cube_ok_spec _ _ _ hue_cube _ _ _
                (unit_floats_In rz Hr) (unit_floats_In gz Hg)
                (unit_floats_In bz Hb)) as K.
  assert (B : (to_Z 360%uint63 <= 360)%Z) by (vm_compute; discriminate).
  destruct (int_below_spec _ _ B K) as (hz & Hh & E).
  change (to_Z 360%uint63) with 360%Z in Hh. eauto.
Qed.

(** X19. For every RGB triple of integers of [0..255], [rgbToHsl] returns
    three integers: a hue of [0..360] (360 included), a saturation and a
    lightness of [0..100]. *)
Theorem rgbToHsl_range (rz gz bz : Z) :
  (0 <= rz <= 255)%Z -> (0 <= gz <= 255)%Z -> (0 <= bz <= 255)%Z ->
  exists hz sz lz,
    (0 <= hz <= 360)%Z /\ (0 <= sz <= 100)%Z /\ (0 <= lz <= 100)%Z
    /\ rgbToHsl (Z2float rz) (Z2float gz) (Z2float bz)
       = mkHsl (Z2float hz) (Z2float sz) (Z2float lz).
Proof.
  intros Hr Hg Hb.
  destruct (rgbToHsl_h_range rz gz bz Hr Hg Hb) as (hz & Hh & Eh).
  destruct (rgbToHsl_s_l_range rz gz bz Hr Hg Hb) as (sz & lz & Hs & Hl & Es & El).
  exists hz, sz, lz. do 3 (split; [assumption |]).
  destruct (rgbToHsl (Z2float rz) (Z2float gz) (Z2float bz)) as [h0 s0 l0].
  cbn [h s l] in *. congruence.
Qed.

Lemma rgbToHsl_range_witness :
  exists hz sz lz,
    (0 <= hz <= 360)%Z /\ (0 <= sz <= 100)%Z /\ (0 <= lz <= 100)%Z
    /\ rgbToHsl (Z2float 59) (Z2float 130) (Z2float 246)
       = mkHsl (Z2float hz) (Z2float sz) (Z2float lz).
Proof. apply (rgbToHsl_range 59 130 246); lia. Defined.

(** ** What the generators return *)

Lemma lightnessValues_integers :
  lightnessValues
  = map Z2float [95; 85; 75; 65; 55; 45; 35; 25; 20; 15; 10; 5]%Z.
Proof. vm_compute. reflexivity. Qed.

(** The HSL of a decoded colour: three integers of the ranges *)
Lemma decoded_hsl (input : JsString.t) (rgb : Rgb) :
  hexToRgb input = Some rgb ->
  exists hz sz lz,
    (0 <= hz <= 360)%Z /\ (0 <= sz <= 100)%Z /\ (0 <= lz <= 100)%Z
    /\ rgbToHsl (r rgb) (g rgb) (b rgb)
       = mkHsl (Z2float hz) (Z2float sz) (Z2float lz).
Proof.
  intros H.
  destruct (hexToRgb_channels input rgb H) as (rz & gz & bz & Hr & Hg & Hb & ->).
  cbn [r g b].
  destruct (rgbToHsl_h_range rz gz bz Hr Hg Hb) as (hz & Hh & Eh).
  destruct (rgbToHsl_s_l_range rz gz bz Hr Hg Hb)
    as (sz & lz & Hs & Hl & Es & El).
  exists hz, sz, lz. do 3 (split; [assumption |]).
  destruct (rgbToHsl (Z2float rz) (Z2float gz) (Z2float bz)) as [h0 s0 l0].
  cbn [h s l] in *. congruence.
Qed.

(** X20. For every valid hex input, [generateShades] returns twelve
    colours, each of them in canonical form. *)
Theorem generateShades_canonical (input n : JsString.t) :
  normalizeHex input = Some n ->
  List.length (generateShades input) = 12%nat
  /\ Forall (fun shade => is_canonical shade = true) (generateShades input).
Proof.
  intros H. destruct (hexToRgb_valid input n H) as [rgb E].
  destruct (decoded_hsl input rgb E) as (hz & sz & lz & Hh & Hs & Hl & Ehsl).
  unfold generateShades. rewrite E, Ehsl. cbn [h s].
  split; [reflexivity |].
  rewrite lightnessValues_integers, map_map.
  apply Forall_map. rewrite Forall_forall. intros z Hz.
  assert (Hr : (0 <= z <= 100)%Z) by (simpl in Hz; intuition lia).
  exact (hslToRgb_grid_canonical hz sz z Hh Hs Hr).
Qed.

Lemma generateShades_canonical_witness :
  List.length (generateShades (str " 3af ")) = 12%nat
  /\ Forall (fun shade => is_canonical shade = true)
            (generateShades (str " 3af ")).
Proof.
  apply (generateShades_canonical (str " 3af ") (str "#33AAFF")). reflexivity.
Defined.

Lemma analogous_ok_all : forallZ_below 361 analogous_ok = true.
Proof. vm_compute. reflexivity. Qed.

Lemma clamp_ok_all : forallZ_below 101 clamp_ok = true.
Proof. vm_compute. reflexivity. Qed.

Lemma tints : tints_ok (numbers 361) (numbers 101) = true.
Proof. vm_cast_no_check (eq_refl true). Qed.

Lemma channels_ok_canonical (c : Rgb) :
  channels_ok c = true -> is_canonical (rgbToHex (r c) (g c) (b c)) = true.
Proof.
  unfold channels_ok. rewrite !andb_true_iff. intros [[Er Eg] Eb].
  assert (B : (to_Z 255%uint63 <= 360)%Z) by (vm_compute; discriminate).
  destruct (int_below_spec _ _ B Er) as (rz & Hr & ->).
  destruct (int_below_spec _ _ B Eg) as (gz & Hg & ->).
  destruct (int_below_spec _ _ B Eb) as (bz & Hb & ->).
  change (to_Z 255%uint63) with 255%Z in Hr, Hg, Hb.
  now apply rgbToHex_is_canonical.
Qed.

Lemma tints_ok_spec (hs ss : list float) :
  tints_ok hs ss = true ->
  forall hv sv, In hv hs -> In sv ss ->
  channels_ok (hslToRgb hv (Math_max 10 (sv * 0.2)) 95) = true
  /\ channels_ok (hslToRgb hv (Math_min 15 (sv * 0.3)) 15) = true.
Proof.
  unfold tints_ok. intros K hv sv Hh Hs.
  rewrite forallb_forall in K. specialize (K sv Hs). cbv beta in K.
  rewrite forallb_forall in K. specialize (K hv Hh). cbv beta in K.
  now apply andb_true_iff in K.
Qed.

Lemma tints_canonical (hz sz : Z) :
  (0 <= hz <= 360)%Z -> (0 <= sz <= 100)%Z ->
  is_canonical
    (let c := hslToRgb (Z2float hz) (Math_max 10 (Z2float sz * 0.2)) 95 in
     rgbToHex (r c) (g c) (b c)) = true
  /\ is_canonical
       (let c := hslToRgb (Z2float hz) (Math_min 15 (Z2float sz * 0.3)) 15 in
        rgbToHex (r c) (g c) (b c)) = true.
Proof.
  intros Hh Hs.
  assert (Kh : In (Z2float hz) (numbers 361))
    by (apply numbers_In; simpl; lia).
  assert (Ks : In (Z2float sz) (numbers 101))
    by (apply numbers_In; simpl; lia).
  destruct (tints_ok_spec _ _ tints _ _ Kh Ks) as [K1 K2].
  split; cbv zeta; now apply channels_ok_canonical.
Qed.

(** X21. For every valid hex input, [generatePaletteFromBase] returns five
    entries with the roles primary, accent, background, text, other in
    this order, and the hex of each of the four derived entries is in
    canonical form. *)
Theorem derived_entries_canonical (input n : JsString.t) :
  normalizeHex input = Some n ->
  map role (generatePaletteFromBase input)
  = [primary; accent; background; text; other]
  /\ Forall (fun e => is_canonical (hex e) = true)
            (tl (generatePaletteFromBase input)).
Proof.
  intros H. destruct (hexToRgb_valid input n H) as [rgb E].
  destruct (decoded_hsl input rgb E) as (hz & sz & lz & Hh & Hs & Hl & Ehsl).
  unfold generatePaletteFromBase. rewrite E, Ehsl. cbv zeta. cbn [h s l].
  split; [reflexivity |]. cbn [tl].
  assert (Hc : rem (Z2float hz + 180) 360 = Z2float ((hz + 180) mod 360)).
  { apply float_eqb_eq.
    apply (forallZ_below_spec _ complement_ok complement_ok_all). simpl. lia. }
  assert (Ha : rem (Z2float hz + 30) 360 = Z2float ((hz + 30) mod 360)).
  { apply float_eqb_eq.
    apply (forallZ_below_spec _ analogous_ok analogous_ok_all). simpl. lia. }
  assert (Cs : clamp_ok sz = true)
    by (apply (forallZ_below_spec _ clamp_ok clamp_ok_all); simpl; lia).
  assert (Cl : clamp_ok lz = true)
    by (apply (forallZ_below_spec _ clamp_ok clamp_ok_all); simpl; lia).
  unfold clamp_ok in Cs, Cl. apply andb_true_iff in Cs, Cl.
  destruct Cs as [Cs _]. destruct Cl as [_ Cl].
  apply float_eqb_eq in Cs, Cl. rewrite Hc, Ha, Cs, Cl.
  destruct (tints_canonical hz sz Hh Hs) as [Tb Tt].
  apply Forall_cons; [| apply Forall_cons; [| apply Forall_cons;
    [| apply Forall_cons; [| apply Forall_nil]]]]; cbn [hex].
  - apply (hslToRgb_grid_canonical ((hz + 180) mod 360) sz lz);
      [pose proof (Z.mod_pos_bound (hz + 180) 360); lia | lia | lia].
  - exact Tb.
  - exact Tt.
  - apply (hslToRgb_grid_canonical ((hz + 30) mod 360)
             (Z.max 40 (Z.min 80 sz)) (Z.max 35 (Z.min 65 (lz + 10))));
      [pose proof (Z.mod_pos_bound (hz + 30) 360); lia | lia | lia].
Qed.

Lemma derived_entries_canonical_witness :
  map role (generatePaletteFromBase (str " 3af "))
  = [primary; accent; background; text; other]
  /\ Forall (fun e => is_canonical (hex e) = true)
            (tl (generatePaletteFromBase (str " 3af "))).
Proof.
  apply (derived_entries_canonical (str " 3af ") (str "#33AAFF")). reflexivity.
Defined.

(** X22. The HSL round trip of an RGB triple of integers of [0..255] is
    again such a triple. *)
Theorem roundTrip_range (rz gz bz : Z) :
  (0 <= rz <= 255)%Z -> (0 <= gz <= 255)%Z -> (0 <= bz <= 255)%Z ->
  exists rz' gz' bz',
    (0 <= rz' <= 255)%Z /\ (0 <= gz' <= 255)%Z /\ (0 <= bz' <= 255)%Z
    /\ roundTrip (Z2float rz) (Z2float gz) (Z2float bz)
       = mkRgb (Z2float rz') (Z2float gz') (Z2float bz').
Proof.
  intros Hr Hg Hb. unfold roundTrip.
  destruct (rgbToHsl_h_range rz gz bz Hr Hg Hb) as (hz & Hh & ->).
  destruct (rgbToHsl_s_l_range rz gz bz Hr Hg Hb)
    as (sz & lz & Hs & Hl & -> & ->).
  destruct (hslToRgb_grid_range hz sz lz Hh Hs Hl)
    as (rz' & gz' & bz' & Hr' & Hg' & Hb' & E & _).
  exists rz', gz', bz'. auto.
Qed.

Lemma roundTrip_range_witness :
  exists rz' gz' bz',
    (0 <= rz' <= 255)%Z /\ (0 <= gz' <= 255)%Z /\ (0 <= bz' <= 255)%Z
    /\ roundTrip (Z2float 2) (Z2float 228) (Z2float 230)
       = mkRgb (Z2float rz') (Z2float gz') (Z2float bz').
Proof. apply (roundTrip_range 2 228 230); lia. Defined.

(** ** [generateId] *)

Lemma draw_ok_all : forallZ_below 16 draw_ok = true.
Proof. vm_compute. reflexivity. Qed.

Lemma replaceXY_fills (random : nat -> Z) (template : JsString.t) (k : nat) :
  (forall i, (0 <= random i < 16)%Z) ->
  fills template (replaceXY random template k) = true.
Proof.
  intros Hr. revert k. induction template as [| c template IH]; intros k;
    [reflexivity |].
  cbn [replaceXY].
  assert (D : draw_ok (random k) = true)
    by (apply (forallZ_below_spec _ draw_ok draw_ok_all); simpl; apply Hr).
  unfold draw_ok in D.
  destruct (c =? 120)%N eqn:Ex; cbn [orb]; cbv zeta.
  - destruct (hex_digits (random k)) as [| x [| ? ?]]; try discriminate.
    destruct (hex_digits (Z.lor (Z.land (random k) 3) 8)) as [| y [| ? ?]];
      try discriminate.
    apply andb_true_iff in D. destruct D as [Dx _].
    cbn [app fills]. now rewrite Ex, Dx, IH.
  - destruct (c =? 121)%N eqn:Ey.
    + destruct (hex_digits (random k)) as [| x [| ? ?]]; try discriminate.
      destruct (hex_digits (Z.lor (Z.land (random k) 3) 8)) as [| y [| ? ?]];
        try discriminate.
      apply andb_true_iff in D. destruct D as [_ Dy].
      cbn [app fills]. now rewrite Ex, Ey, Dy, IH.
    + cbn [fills]. now rewrite Ex, Ey, N.eqb_refl, IH.
Qed.

Lemma fills_length (template s0 : JsString.t) :
  fills template s0 = true -> List.length s0 = List.length template.
Proof.
  revert s0. induction template as [| c template IH]; intros [| d s0];
    cbn [fills List.length]; try discriminate; [reflexivity |].
  intros F. apply andb_true_iff in F. destruct F as [_ F].
  f_equal. now apply IH.
Qed.

(** X23. Whatever numbers of [0..15] are drawn, [generateId] returns a
    string of 36 characters in the shape of a version 4 UUID: the hyphens
    and the ['4'] of the template in their places, one of [8 9 a b] for
    the ['y'] and a hex digit [0-9a-f] for every ['x']. *)
Theorem generateId_uuid (random : nat -> Z) :
  (forall i, (0 <= random i < 16)%Z) ->
  fills (str "xxxxxxxx-xxxx-4xxx-yxxx-xxxxxxxxxxxx") (generateId random) = true
  /\ List.length (generateId random) = 36%nat.
Proof.
  intros Hr. pose proof (replaceXY_fills random
    (str "xxxxxxxx-xxxx-4xxx-yxxx-xxxxxxxxxxxx") 0 Hr) as F.
  split; [exact F |]. exact (fills_length _ _ F).
Qed.

Lemma generateId_uuid_witness :
  fills (str "xxxxxxxx-xxxx-4xxx-yxxx-xxxxxxxxxxxx")
        (generateId (fun i => Z.of_nat (i mod 16))) = true
  /\ List.length (generateId (fun i => Z.of_nat (i mod 16))) = 36%nat.
Proof.
  apply (generateId_uuid (fun i => Z.of_nat (i mod 16))).
  intros i. pose proof (Nat.mod_upper_bound i 16). lia.
Defined.
